(** * Intercom: an in-process event bus and single-responder RPC dispatcher

    A shallow embedding of [src/service/intercom.ts] (class [Intercom]) and
    [src/service/handler_registry.ts] (type [HandlersRegistry]), followed by
    the properties of the registry engine.

    Conventions of the embedding
    - a registry, a JS object used as a map from names to arrays, is a
      [gmap string (list _)]; a missing key reads as [undefined];
    - a method of the class is a computation in the monad [M]: it takes the
      world (the dispatcher object and the two host facilities the class
      uses, shortid and the [setImmediate] queue) and returns the world it
      leaves behind together with how the call completed.  A JS exception
      does not roll anything back, so the world is returned in every case;
    - reading a property of [undefined] throws the native [TypeError];
    - the [do ... while] loop of [generateUniqueIdentifier] is bounded by a
      fuel argument; running out of fuel is the completion [Diverge]. *)

From stdpp Require Import gmap strings list fin_maps pretty.

Local Open Scope string_scope.
Local Open Scope list_scope.
Local Open Scope Z_scope.

(** ** Values, errors and completions *)

(** The JavaScript values that payloads, results and errors range over. *)
Inductive JsValue : Type :=
| JsUndefined
| JsNull
| JsBoolean (b : bool)
| JsNumber (n : Z)
| JsString (s : string)
| JsError (message : string).

(** ToBoolean, as used by the conditional operator. *)
Definition truthy (v : JsValue) : bool :=
  match v with
  | JsUndefined | JsNull => false
  | JsBoolean b => b
  | JsNumber n => negb (n =? 0)
  | JsString s => negb (String.eqb s EmptyString)
  | JsError _ => true
  end.

(** What a call can throw: an [ApplicationError] of @speedup/error, built
    from a code and a message, or the native [TypeError]. *)
Inductive Thrown : Type :=
| ApplicationError (code message : string)
| TypeError.

Inductive Completion (A : Type) : Type :=
| Normal (a : A)
| Throw (e : Thrown)
| Diverge.
Arguments Normal {A} a.
Arguments Throw {A} e.
Arguments Diverge {A}.

(** A promise, by the way it settles. *)
Inductive Promise : Type :=
| Fulfilled (value : JsValue)
| Rejected (reason : JsValue)
| Pending.

(** ** Configuration *)

Record IntercomConfig : Type := {
  preventDuplicatedEventListeners : bool;
  throwErrorIfNoEventHandlerFound : bool;
  throwErrorIfNoMethodHandlerFound : bool
}.

Definition defaultIntercomConfig : IntercomConfig := {|
  preventDuplicatedEventListeners := false;
  throwErrorIfNoEventHandlerFound := false;
  throwErrorIfNoMethodHandlerFound := true
|}.

(** ** Handler registries *)

Record HandlerEntry (F : Type) : Type := {
  id : string;
  handler : F
}.
Arguments id {F} _.
Arguments handler {F} _.

Abbreviation HandlersRegistry F := (gmap string (list (HandlerEntry F))).

(** The two shapes of an RPC handler.  [handler.length], the declared
    parameter count, tells them apart: one parameter for the promise shape,
    two for the callback shape.  A callback-shaped handler is described by
    the invocations [(err, result)] of its completion callback, in order. *)
Inductive RequestHandler : Type :=
| PromiseMethod (f : JsValue -> Promise)
| CallbackMethod (f : JsValue -> list (JsValue * JsValue)).

(** What is stored in the method registry: the promise-based wrapper. *)
Definition MethodFn : Type := JsValue -> Promise.

(** [new Promise((resolve, reject) => ...)]: the first call of [resolve] or
    [reject] settles the promise, later calls are ignored. *)
Definition newPromise (settlements : list Promise) : Promise :=
  match settlements with
  | [] => Pending
  | p :: _ => p
  end.

(** [Array.prototype.findIndex]: the first index whose element satisfies the
    predicate, or -1. *)
Fixpoint findIndex_from {A : Type} (p : A -> bool) (l : list A) (i : Z) : Z :=
  match l with
  | [] => -1
  | x :: l' => if p x then i else findIndex_from p l' (i + 1)
  end.

Definition findIndex {A : Type} (p : A -> bool) (l : list A) : Z :=
  findIndex_from p l 0.

(** [Array.isArray] on what a registry lookup gives: an array or
    [undefined]. *)
Definition isArray {A : Type} (v : option (list A)) : bool :=
  match v with
  | Some _ => true
  | None => false
  end.

(** The error objects of the two policies. *)
Definition NoHandlerError (handlerName : string) : Thrown :=
  ApplicationError "E_NO_HANDLER"
    ("No handler is registered for '" +:+ handlerName +:+ "' on the registry.").

Definition AlreadyExistsError (handlerName : string) : Thrown :=
  ApplicationError "E_ALREADY_EXISTS"
    ("There is an already registered handler for '" +:+ handlerName
       +:+ "' on the registry.").

(** What [request] hands back: the handler's promise in promise mode;
    nothing in callback mode, where [callbackRun] is the call of the
    completion callback that the settled promise triggers, if it settles. *)
Inductive RequestReturn (R : Type) : Type :=
| ReturnedPromise (p : Promise)
| ReturnedVoid (callbackRun : option R).
Arguments ReturnedPromise {R} p.
Arguments ReturnedVoid {R} callbackRun.

(** [p.then(result => callback(undefined, result)).catch(err => callback(err))] *)
Definition then_catch {R : Type} (p : Promise)
    (callback : JsValue -> JsValue -> R) : option R :=
  match p with
  | Fulfilled result => Some (callback JsUndefined result)
  | Rejected err => Some (callback err JsUndefined)
  | Pending => None
  end.

(** The promise-based wrapper that [onRequest] stores.  A promise-shaped
    handler ([handler.length === 1]) is called as it is; a callback-shaped
    one runs inside a new promise that its completion callback
    [(err, result) => err ? reject(err) : resolve(err)] settles. *)
Definition wrapper (handler : RequestHandler) : MethodFn :=
  fun payload =>
    match handler with
    | PromiseMethod f => f payload
    | CallbackMethod f =>
        newPromise
          (List.map
             (fun '(err, result) =>
                if truthy err then Rejected err else Fulfilled err)
             (f payload))
    end.

Section Intercom.

(** The type of event listeners, [(payload: T) => void]: the dispatcher
    stores and schedules them and never looks inside. *)
Context {EventFn : Type}.

(** shortid: [generateId n] is what the [n]-th call of [generateId()]
    returns. *)
Context (generateId : nat -> string).

Record Intercom : Type := {
  config : IntercomConfig;
  eventHandlers : HandlersRegistry EventFn;
  methodHandlers : HandlersRegistry MethodFn
}.

(** The constructor: the defaults, overridden by the given configuration. *)
Definition new_Intercom (cfg : option IntercomConfig) : Intercom := {|
  config := match cfg with Some c => c | None => defaultIntercomConfig end;
  eventHandlers := ∅;
  methodHandlers := ∅
|}.

(** A task handed to [setImmediate]: the listener and its payload. *)
Record Immediate : Type := {
  task_handler : EventFn;
  task_payload : JsValue
}.

Record World : Type := {
  self : Intercom;
  shortidCalls : nat;
  immediateQueue : list Immediate
}.

Definition with_self (w : World) (this : Intercom) : World :=
  {| self := this; shortidCalls := shortidCalls w;
     immediateQueue := immediateQueue w |}.

(** ** The monad of method calls *)

Definition M (A : Type) : Type := World -> World * Completion A.

Definition ret {A : Type} (a : A) : M A := fun w => (w, Normal a).

Definition bind {A B : Type} (c : M A) (k : A -> M B) : M B :=
  fun w =>
    match c w with
    | (w', Normal a) => k a w'
    | (w', Throw e) => (w', Throw e)
    | (w', Diverge) => (w', Diverge)
    end.

Definition throw {A : Type} (e : Thrown) : M A := fun w => (w, Throw e).

Definition diverge {A : Type} : M A := fun w => (w, Diverge).

Notation "x <- c ;; k" := (bind c (fun x => k))
  (at level 100, c at next level, right associativity).
Notation "c ;;; k" := (bind c (fun _ => k))
  (at level 100, right associativity).

Definition this_config : M IntercomConfig := fun w => (w, Normal (config (self w))).

(** ** References to the two registries

    The utility methods receive [this.eventHandlers] or
    [this.methodHandlers] by reference and mutate it in place. *)
Record RegistryRef (F : Type) : Type := {
  deref : Intercom -> HandlersRegistry F;
  assign : HandlersRegistry F -> Intercom -> Intercom
}.
Arguments deref {F} _ _.
Arguments assign {F} _ _ _.

Definition this_eventHandlers : RegistryRef EventFn := {|
  deref := eventHandlers;
  assign := fun r this =>
    {| config := config this; eventHandlers := r;
       methodHandlers := methodHandlers this |}
|}.

Definition this_methodHandlers : RegistryRef MethodFn := {|
  deref := methodHandlers;
  assign := fun r this =>
    {| config := config this; eventHandlers := eventHandlers this;
       methodHandlers := r |}
|}.

Definition read {F : Type} (registry : RegistryRef F) : M (HandlersRegistry F) :=
  fun w => (w, Normal (deref registry (self w))).

Definition write {F : Type} (registry : RegistryRef F)
    (r : HandlersRegistry F) : M unit :=
  fun w => (with_self w (assign registry r (self w)), Normal tt).

(** [registry[handlerName]] followed by a property access: the array, or a
    [TypeError] when the key is missing. *)
Definition handlersAt {F : Type} (registry : RegistryRef F)
    (handlerName : string) : M (list (HandlerEntry F)) :=
  r <- read registry ;;
  match r !! handlerName with
  | Some entries => ret entries
  | None => throw TypeError
  end.

(** ** Utility methods *)

Definition prepareHandlersRegistry {F : Type} (registry : RegistryRef F)
    (handlerName : string) : M unit :=
  r <- read registry ;;
  let handlerCollectionExists := isArray (r !! handlerName) in
  if negb handlerCollectionExists
  then write registry (<[handlerName := []]> r)
  else ret tt.

Definition ensureHandlersExists {F : Type} (registry : RegistryRef F)
    (handlerName : string) (throwErrorIfNotExists : bool) : M unit :=
  entries <- handlersAt registry handlerName ;;
  let handlerExists := (0 <? length entries)%nat in
  if negb handlerExists && throwErrorIfNotExists
  then throw (NoHandlerError handlerName)
  else ret tt.

Definition preventRegisteringMoreThanOneHandler {F : Type}
    (registry : RegistryRef F) (handlerName : string)
    (throwErrorIfExists : bool) : M unit :=
  entries <- handlersAt registry handlerName ;;
  let handlerExists := (0 <? length entries)%nat in
  if handlerExists && throwErrorIfExists
  then throw (AlreadyExistsError handlerName)
  else ret tt.

Definition removeAllHandlers {F : Type} (registry : RegistryRef F)
    (handlerName : string) : M unit :=
  r <- read registry ;;
  write registry (delete handlerName r).

Definition removeHandlerById {F : Type} (registry : RegistryRef F)
    (handlerName : string) (handlerId : string) : M unit :=
  entries <- handlersAt registry handlerName ;;
  r <- read registry ;;
  write registry
    (<[handlerName :=
         List.filter (fun e => negb (String.eqb (id e) handlerId)) entries]> r).

(** One call of shortid's generator. *)
Definition shortid : M string :=
  fun w =>
    ({| self := self w; shortidCalls := S (shortidCalls w);
        immediateQueue := immediateQueue w |},
     Normal (generateId (shortidCalls w))).

Fixpoint generateUniqueIdentifier {F : Type} (fuel : nat)
    (registry : RegistryRef F) (handlerName : string) : M string :=
  match fuel with
  | O => diverge
  | S fuel' =>
      generatedId <- shortid ;;
      entries <- handlersAt registry handlerName ;;
      let isUnique :=
        findIndex (fun e => String.eqb (id e) generatedId) entries =? -1 in
      if negb isUnique
      then generateUniqueIdentifier fuel' registry handlerName
      else ret generatedId
  end.

(** [Array.prototype.push]: appends in place and returns the new length. *)
Definition push {F : Type} (registry : RegistryRef F) (handlerName : string)
    (entry : HandlerEntry F) : M nat :=
  entries <- handlersAt registry handlerName ;;
  r <- read registry ;;
  write registry (<[handlerName := entries ++ [entry]]> r) ;;;
  ret (length (entries ++ [entry])).

(** [setImmediate(callback, payload)]: queues the task, runs nothing now. *)
Definition setImmediate (callback : EventFn) (payload : JsValue) : M unit :=
  fun w =>
    ({| self := self w; shortidCalls := shortidCalls w;
        immediateQueue :=
          immediateQueue w
            ++ [{| task_handler := callback; task_payload := payload |}] |},
     Normal tt).

(** [Array.prototype.map] run for the effects of its callback, in order of
    the elements; [emit] drops the resulting array. *)
Fixpoint array_map {A : Type} (f : A -> M unit) (l : list A) : M unit :=
  match l with
  | [] => ret tt
  | x :: l' => f x ;;; array_map f l'
  end.

(** ** Event methods

    A per-call configuration object has a single boolean field, so an
    optional one is an [option bool]; a payload left out is [JsUndefined]. *)

Definition emit (eventName : string) (payload : JsValue)
    (config : option bool) : M unit :=
  prepareHandlersRegistry this_eventHandlers eventName ;;;
  cfg <- this_config ;;
  ensureHandlersExists this_eventHandlers eventName
    (match config with
     | Some throwErrorIfNoEventHandlerFound' => throwErrorIfNoEventHandlerFound'
     | None => throwErrorIfNoEventHandlerFound cfg
     end) ;;;
  entries <- handlersAt this_eventHandlers eventName ;;
  array_map (fun entry => setImmediate (handler entry) payload) entries.

(** [(config && config.flag) || dflt]: an absent [config] is falsy. *)
Definition or_default (config : option bool) (dflt : bool) : bool :=
  match config with
  | Some flag => flag
  | None => false
  end || dflt.

Definition onEvent (fuel : nat) (eventName : string) (handler : EventFn)
    (config : option bool) : M string :=
  prepareHandlersRegistry this_eventHandlers eventName ;;;
  cfg <- this_config ;;
  preventRegisteringMoreThanOneHandler this_eventHandlers eventName
    (or_default config (preventDuplicatedEventListeners cfg)) ;;;
  generatedId <- generateUniqueIdentifier fuel this_eventHandlers eventName ;;
  insertedHandlerIndex <-
    push this_eventHandlers eventName
      {| id := generatedId; handler := handler |} ;;
  entries <- handlersAt this_eventHandlers eventName ;;
  match entries !! insertedHandlerIndex with
  | Some entry => ret (id entry)
  | None => throw TypeError
  end.

Definition removeAllEventHandlers (eventName : string) : M unit :=
  prepareHandlersRegistry this_eventHandlers eventName ;;;
  removeAllHandlers this_eventHandlers eventName.

Definition removeEventHandler (eventName : string) (handlerId : string)
    : M unit :=
  prepareHandlersRegistry this_eventHandlers eventName ;;;
  removeHandlerById this_eventHandlers eventName handlerId.

(** ** RPC methods *)

Definition request {R : Type} (methodName : string) (payload : JsValue)
    (config : option bool) (callback : option (JsValue -> JsValue -> R))
    : M (RequestReturn R) :=
  prepareHandlersRegistry this_methodHandlers methodName ;;;
  cfg <- this_config ;;
  ensureHandlersExists this_methodHandlers methodName
    (or_default config (throwErrorIfNoMethodHandlerFound cfg)) ;;;
  entries <- handlersAt this_methodHandlers methodName ;;
  match callback with
  | Some callback' =>
      match entries !! 0%nat with
      | Some entry =>
          ret (ReturnedVoid (then_catch (handler entry payload) callback'))
      | None => throw TypeError
      end
  | None =>
      match entries !! 0%nat with
      | Some entry => ret (ReturnedPromise (handler entry payload))
      | None => throw TypeError
      end
  end.

Definition onRequest (fuel : nat) (methodName : string)
    (handler : RequestHandler) : M string :=
  prepareHandlersRegistry this_methodHandlers methodName ;;;
  preventRegisteringMoreThanOneHandler this_methodHandlers methodName true ;;;
  handlerIdentifier <-
    generateUniqueIdentifier fuel this_methodHandlers methodName ;;
  r <- read this_methodHandlers ;;
  write this_methodHandlers
    (<[methodName :=
         [{| id := handlerIdentifier; handler := wrapper handler |}]]> r) ;;;
  ret handlerIdentifier.

Definition removeMethodHandler (methodName : string) : M unit :=
  removeAllHandlers this_methodHandlers methodName.

(** ** The module entry point, [src/index.ts]

    The shared default instance and the factory; both are [new Intercom()]. *)
Definition defaultInstance : Intercom := new_Intercom None.

Definition createIntercomInstance (_ : unit) : Intercom := new_Intercom None.

(** ** Calls of the public interface

    A call of one of the seven public methods, and running it for its effect
    on the world: the returned value is dropped, the completion is kept. *)
Inductive Call : Type :=
| Emit (eventName : string) (payload : JsValue) (config : option bool)
| OnEvent (fuel : nat) (eventName : string) (handler : EventFn)
    (config : option bool)
| RemoveAllEventHandlers (eventName : string)
| RemoveEventHandler (eventName handlerId : string)
| Request (methodName : string) (payload : JsValue) (config : option bool)
    (callback : option (JsValue -> JsValue -> unit))
| OnRequest (fuel : nat) (methodName : string) (handler : RequestHandler)
| RemoveMethodHandler (methodName : string).

Definition void {A : Type} (c : M A) : M unit := _ <- c ;; ret tt.

Definition perform (c : Call) : M unit :=
  match c with
  | Emit eventName payload config => emit eventName payload config
  | OnEvent fuel eventName handler config =>
      void (onEvent fuel eventName handler config)
  | RemoveAllEventHandlers eventName => removeAllEventHandlers eventName
  | RemoveEventHandler eventName handlerId =>
      removeEventHandler eventName handlerId
  | Request methodName payload config callback =>
      void (request methodName payload config callback)
  | OnRequest fuel methodName handler =>
      void (onRequest fuel methodName handler)
  | RemoveMethodHandler methodName => removeMethodHandler methodName
  end.

(** The worlds a program can be in: a dispatcher fresh from its constructor,
    then any sequence of calls, whatever their completion. *)
Inductive reachable : World -> Prop :=
| reachable_new (cfg : option IntercomConfig) (calls : nat)
    (queue : list Immediate) :
    reachable
      {| self := new_Intercom cfg; shortidCalls := calls;
         immediateQueue := queue |}
| reachable_perform (w : World) (c : Call) :
    reachable w -> reachable (fst (perform c w)).

End Intercom.


Arguments Intercom : clear implicits.
Arguments Immediate : clear implicits.
Arguments World : clear implicits.
Arguments M : clear implicits.
Arguments Call : clear implicits.
Arguments RegistryRef : clear implicits.
Arguments deref {EventFn F} _ _.
Arguments assign {EventFn F} _ _ _.

(** ** Views of a registry used in the statements *)

(** The entries registered under a name; a missing slot holds none. *)
Definition handlersOf {F : Type} (r : HandlersRegistry F) (name : string)
    : list (HandlerEntry F) :=
  default [] (r !! name).

(** A registry after its slot for [name] has been prepared. *)
Definition materialise {F : Type} (r : HandlersRegistry F) (name : string)
    : HandlersRegistry F :=
  match r !! name with
  | Some _ => r
  | None => <[name := []]> r
  end.

(** Assignment through a registry reference, at the level of worlds. *)
Definition store {EventFn F : Type} (registry : RegistryRef EventFn F)
    (w : World EventFn) (r : HandlersRegistry F) : World EventFn :=
  with_self w (assign registry r (self w)).

(** The world after [n] more calls of shortid. *)
Definition drawn {EventFn : Type} (w : World EventFn) (n : nat)
    : World EventFn :=
  {| self := self w; shortidCalls := shortidCalls w + n;
     immediateQueue := immediateQueue w |}.

(** The world with more tasks at the end of the [setImmediate] queue. *)
Definition queued {EventFn : Type} (w : World EventFn)
    (tasks : list (Immediate EventFn)) : World EventFn :=
  {| self := self w; shortidCalls := shortidCalls w;
     immediateQueue := immediateQueue w ++ tasks |}.

(** The task that [emit] schedules for an entry. *)
Definition task_of {EventFn : Type} (payload : JsValue)
    (entry : HandlerEntry EventFn) : Immediate EventFn :=
  {| task_handler := handler entry; task_payload := payload |}.

(** The flag that [emit] hands to [ensureHandlersExists]: the per-call
    value when a per-call configuration is given, the dispatcher's
    otherwise. *)
Definition emit_strict {EventFn : Type} (perCall : option bool)
    (this : Intercom EventFn) : bool :=
  match perCall with
  | Some flag => flag
  | None => throwErrorIfNoEventHandlerFound (config this)
  end.

(** The flag that [request] hands to [ensureHandlersExists]. *)
Definition request_strict {EventFn : Type} (perCall : option bool)
    (this : Intercom EventFn) : bool :=
  or_default perCall (throwErrorIfNoMethodHandlerFound (config this)).

(** What the caller of [request] gets from the first entry of the list. *)
Definition answer {R : Type} (callback : option (JsValue -> JsValue -> R))
    (payload : JsValue) (entry : HandlerEntry MethodFn) : RequestReturn R :=
  match callback with
  | Some callback' => ReturnedVoid (then_catch (handler entry payload) callback')
  | None => ReturnedPromise (handler entry payload)
  end.

(** The method registry holds at most one entry per name. *)
Definition exclusive {EventFn : Type} (this : Intercom EventFn) : Prop :=
  forall (name : string) (entries : list (HandlerEntry MethodFn)),
    methodHandlers this !! name = Some entries -> (length entries <= 1)%nat.

(** Within a name no two entries share an identifier. *)
Definition unique_ids {F : Type} (r : HandlersRegistry F) : Prop :=
  forall (name : string) (entries : list (HandlerEntry F)),
    r !! name = Some entries -> NoDup (id <$> entries).

(** Two worlds that differ at most in empty slots: same configuration, same
    entries under every name of both registries, same host state. *)
Definition same_handlers {EventFn : Type} (w w' : World EventFn) : Prop :=
  config (self w') = config (self w)
  /\ (forall name, handlersOf (eventHandlers (self w')) name
                   = handlersOf (eventHandlers (self w)) name)
  /\ (forall name, handlersOf (methodHandlers (self w')) name
                   = handlersOf (methodHandlers (self w)) name)
  /\ shortidCalls w' = shortidCalls w
  /\ immediateQueue w' = immediateQueue w.

(** Two worlds whose registries agree on every slot but that of [name]. *)
Definition same_slots_but {EventFn : Type} (name : string)
    (w w' : World EventFn) : Prop :=
  forall other : string,
    other <> name ->
    eventHandlers (self w') !! other = eventHandlers (self w) !! other
    /\ methodHandlers (self w') !! other = methodHandlers (self w) !! other.

(** The calls of the event channel, as opposed to those of the RPC
    channel. *)
Definition event_call {EventFn : Type} (c : Call EventFn) : bool :=
  match c with
  | Emit _ _ _ | OnEvent _ _ _ _ | RemoveAllEventHandlers _
  | RemoveEventHandler _ _ => true
  | Request _ _ _ _ | OnRequest _ _ _ | RemoveMethodHandler _ => false
  end.

(** A program as the sequence of its calls: the world after running them
    one after the other, whatever their completion. *)
Definition run_calls {EventFn : Type} (generateId : nat -> string)
    (calls : list (Call EventFn)) (w : World EventFn) : World EventFn :=
  List.fold_left (fun w c => fst (perform generateId c w)) calls w.

(** ** A sample program

    Concrete worlds on which the statements below are instantiated.
    Listeners are named by strings; shortid draws the same identifier twice
    and a different one from then on. *)

Definition sampleIds (n : nat) : string :=
  match n with
  | O => "a1"
  | 1%nat => "a1"
  | _ => "b2"
  end.

(** [new Intercom()] in a host that has not called shortid yet. *)
Definition fresh : World string :=
  {| self := new_Intercom None; shortidCalls := 0; immediateQueue := [] |}.

(** A dispatcher built with every policy switched off. *)
Definition lenient : World string :=
  {| self :=
       new_Intercom
         (Some {| preventDuplicatedEventListeners := false;
                  throwErrorIfNoEventHandlerFound := false;
                  throwErrorIfNoMethodHandlerFound := false |});
     shortidCalls := 0; immediateQueue := [] |}.

Definition first_handler : RequestHandler :=
  PromiseMethod (fun _ => Fulfilled (JsString "first")).

Definition second_handler : RequestHandler :=
  PromiseMethod (fun _ => Fulfilled (JsString "second")).

(** [(payload, callback) => callback(undefined, 42)] *)
Definition callback_handler : RequestHandler :=
  CallbackMethod (fun _ => [(JsUndefined, JsNumber 42)]).

(** [(payload, callback) => callback(new Error('boom'))] *)
Definition failing_handler : RequestHandler :=
  CallbackMethod (fun _ => [(JsError "boom", JsUndefined)]).

(** After [onRequest('m', first_handler)]. *)
Definition with_first_handler : World string :=
  fst (perform sampleIds (OnRequest 1 "m" first_handler) fresh).

(** After [onRequest('m', callback_handler)]. *)
Definition with_callback_handler : World string :=
  fst (perform sampleIds (OnRequest 1 "m" callback_handler) fresh).

(** After [onEvent('ev', listener)]. *)
Definition with_listener : World string :=
  fst (perform sampleIds (OnEvent 1 "ev" "listener" None) fresh).

(** After a second [onEvent('ev', other)]. *)
Definition with_two_listeners : World string :=
  fst (perform sampleIds (OnEvent 2 "ev" "other" None) with_listener).

(** * Properties *)

Section Properties.

Context {EventFn : Type} (generateId : nat -> string).

Implicit Types (w : World EventFn) (name handlerId : string).

(** ** Arrays and registries *)

Lemma findIndex_from_none {A : Type} (p : A -> bool) (l : list A) (i : Z) :
  0 <= i ->
  findIndex_from p l i = -1 <-> Forall (fun x => p x = false) l.
Proof.
  revert i. induction l as [|x l IH]; intros i Hi; cbn.
  - split; [constructor | reflexivity].
  - destruct (p x) eqn:Hpx.
    + split; [lia | intros H; inversion H; congruence].
    + rewrite IH by lia. split.
      * intros H. constructor; assumption.
      * intros H. inversion H; assumption.
Qed.

Lemma findIndex_none {A : Type} (p : A -> bool) (l : list A) :
  findIndex p l = -1 <-> Forall (fun x => p x = false) l.
Proof. apply findIndex_from_none. lia. Qed.

(** No entry of the array carries the identifier exactly when the search of
    [generateUniqueIdentifier] comes back with -1. *)
Lemma isUnique_spec {F : Type} (entries : list (HandlerEntry F))
    (generatedId : string) :
  (findIndex (fun e => String.eqb (id e) generatedId) entries =? -1) = true
  <-> generatedId ∉ (id <$> entries).
Proof.
  rewrite Z.eqb_eq, findIndex_none, Forall_forall, list_elem_of_fmap.
  split.
  - intros H (e & -> & He).
    specialize (H e He). rewrite String.eqb_refl in H. discriminate.
  - intros H e He. destruct (String.eqb (id e) generatedId) eqn:Heq; [|done].
    apply String.eqb_eq in Heq. exfalso. apply H. exists e.
    by split.
Qed.

(** The error objects carry the name: it can be read back from them. *)
Lemma append_cons (c : Ascii.ascii) (a s : string) :
  String c a +:+ s = String c (a +:+ s).
Proof. reflexivity. Qed.

Lemma append_length (a s : string) :
  String.length (a +:+ s) = (String.length a + String.length s)%nat.
Proof.
  induction a as [|c a IH]; [done |].
  rewrite append_cons. cbn. by rewrite IH.
Qed.

Lemma append_cancel_r (a b s : string) : a +:+ s = b +:+ s -> a = b.
Proof.
  revert b. induction a as [|c a IH]; intros [|d b] Heq.
  - done.
  - apply (f_equal String.length) in Heq.
    rewrite !append_length in Heq. cbn in Heq. lia.
  - apply (f_equal String.length) in Heq.
    rewrite !append_length in Heq. cbn in Heq. lia.
  - rewrite !append_cons in Heq. injection Heq as -> Heq.
    f_equal. by apply IH.
Qed.

Lemma NoHandlerError_inj (a b : string) :
  NoHandlerError a = NoHandlerError b -> a = b.
Proof.
  unfold NoHandlerError. intros Heq. injection Heq as Heq.
  apply (inj (String.append _)) in Heq. by apply append_cancel_r in Heq.
Qed.

Lemma AlreadyExistsError_inj (a b : string) :
  AlreadyExistsError a = AlreadyExistsError b -> a = b.
Proof.
  unfold AlreadyExistsError. intros Heq. injection Heq as Heq.
  apply (inj (String.append _)) in Heq. by apply append_cancel_r in Heq.
Qed.

Lemma materialise_lookup {F : Type} (r : HandlersRegistry F) name :
  materialise r name !! name = Some (handlersOf r name).
Proof.
  unfold materialise, handlersOf.
  destruct (r !! name) eqn:Hr; cbn; [done | by rewrite lookup_insert_eq].
Qed.

Lemma materialise_lookup_ne {F : Type} (r : HandlersRegistry F) name n :
  name <> n -> materialise r name !! n = r !! n.
Proof.
  intros Hne. unfold materialise.
  destruct (r !! name); [done | by rewrite lookup_insert_ne].
Qed.

Lemma handlersOf_materialise {F : Type} (r : HandlersRegistry F) name n :
  handlersOf (materialise r name) n = handlersOf r n.
Proof.
  destruct (decide (name = n)) as [->|Hne].
  - unfold handlersOf at 1. by rewrite materialise_lookup.
  - unfold handlersOf. by rewrite materialise_lookup_ne.
Qed.

Lemma materialise_present {F : Type} (r : HandlersRegistry F) name entries :
  r !! name = Some entries -> materialise r name = r.
Proof. intros H. unfold materialise. by rewrite H. Qed.

Lemma store_events_id w :
  store this_eventHandlers w (eventHandlers (self w)) = w.
Proof. by destruct w as [[] ? ?]. Qed.

Lemma store_methods_id w :
  store this_methodHandlers w (methodHandlers (self w)) = w.
Proof. by destruct w as [[] ? ?]. Qed.

(** ** The utility methods, one equation each *)

Lemma handlersAt_eq {F : Type} (registry : RegistryRef EventFn F) name w :
  handlersAt registry name w
  = (w, match deref registry (self w) !! name with
        | Some entries => Normal entries
        | None => Throw TypeError
        end).
Proof.
  unfold handlersAt, bind, read. cbn.
  by destruct (deref registry (self w) !! name).
Qed.

Lemma prepare_events name w :
  prepareHandlersRegistry this_eventHandlers name w
  = (store this_eventHandlers w (materialise (eventHandlers (self w)) name),
     Normal tt).
Proof.
  unfold prepareHandlersRegistry, bind, read, write, materialise. cbn.
  destruct (eventHandlers (self w) !! name); cbn; [|done].
  by rewrite store_events_id.
Qed.

Lemma prepare_methods name w :
  prepareHandlersRegistry this_methodHandlers name w
  = (store this_methodHandlers w (materialise (methodHandlers (self w)) name),
     Normal tt).
Proof.
  unfold prepareHandlersRegistry, bind, read, write, materialise. cbn.
  destruct (methodHandlers (self w) !! name); cbn; [|done].
  by rewrite store_methods_id.
Qed.

(** ** Identifier generation *)

Lemma drawn_drawn w (n m : nat) : drawn (drawn w n) m = drawn w (n + m).
Proof. unfold drawn. cbn. f_equal. lia. Qed.

Lemma drawn_0 w : drawn w 0 = w.
Proof. destruct w. unfold drawn. cbn. f_equal. lia. Qed.

(** One turn of the [do ... while] loop. *)
Lemma generateUniqueIdentifier_turn {F : Type}
    (registry : RegistryRef EventFn F) name entries fuel w :
  deref registry (self w) !! name = Some entries ->
  generateUniqueIdentifier generateId (S fuel) registry name w
  = if findIndex (fun e => String.eqb (id e) (generateId (shortidCalls w)))
         entries =? -1
    then (drawn w 1, Normal (generateId (shortidCalls w)))
    else generateUniqueIdentifier generateId fuel registry name (drawn w 1).
Proof.
  intros Hslot. cbn [generateUniqueIdentifier].
  unfold bind at 1. unfold shortid at 1. unfold bind at 1.
  rewrite handlersAt_eq. cbn [self]. rewrite Hslot.
  replace (S (shortidCalls w)) with (shortidCalls w + 1)%nat by lia.
  fold (drawn w 1).
  by destruct (findIndex _ entries =? -1).
Qed.

(** The loop, draw by draw: it hands back the first draw that no entry under
    the name carries, having consumed the colliding draws before it; with
    [fuel] colliding draws in a row it is still running.  It never throws
    once the slot exists. *)
Lemma generateUniqueIdentifier_first_fresh {F : Type}
    (registry : RegistryRef EventFn F) name entries fuel w :
  deref registry (self w) !! name = Some entries ->
  (exists k, (k < fuel)%nat
     /\ (forall j, (j < k)%nat ->
           generateId (shortidCalls w + j) ∈ (id <$> entries))
     /\ (generateId (shortidCalls w + k) ∉ (id <$> entries))
     /\ (generateUniqueIdentifier generateId fuel registry name w
         = (drawn w (S k), Normal (generateId (shortidCalls w + k)))))
  \/ ((forall j, (j < fuel)%nat ->
         generateId (shortidCalls w + j) ∈ (id <$> entries))
      /\ (generateUniqueIdentifier generateId fuel registry name w
          = (drawn w fuel, Diverge))).
Proof.
  revert w. induction fuel as [|fuel IH]; intros w Hslot.
  - right. split; [intros j Hj; lia |].
    cbn. unfold diverge. by rewrite drawn_0.
  - rewrite (generateUniqueIdentifier_turn _ _ _ _ _ Hslot).
    destruct (findIndex _ entries =? -1) eqn:Huniq.
    + left. exists 0%nat. rewrite Nat.add_0_r.
      apply isUnique_spec in Huniq.
      repeat split; [lia | intros j Hj; lia | done].
    + assert (Hcol : generateId (shortidCalls w) ∈ (id <$> entries)).
      { destruct (decide (generateId (shortidCalls w) ∈ (id <$> entries)))
          as [Hin|Hnin]; [done |].
        apply isUnique_spec in Hnin. congruence. }
      assert (Hshift : forall j,
                 (shortidCalls (drawn w 1) + j = shortidCalls w + S j)%nat)
        by (intros j; cbn; lia).
      destruct (IH (drawn w 1) Hslot)
        as [(k & Hk & Hbefore & Hfresh & Hrun) | [Hall Hrun]].
      * left. exists (S k). rewrite Hshift in Hfresh, Hrun.
        rewrite drawn_drawn in Hrun.
        repeat split; [lia | | done | done].
        intros [|j] Hj; [by rewrite Nat.add_0_r |].
        rewrite <- Hshift. apply Hbefore. lia.
      * right. rewrite drawn_drawn in Hrun. split; [| done].
        intros [|j] Hj; [by rewrite Nat.add_0_r |].
        rewrite <- Hshift. apply Hall. lia.
Qed.

(** ** The public methods, one equation each *)

Lemma array_map_setImmediate (payload : JsValue)
    (entries : list (HandlerEntry EventFn)) w :
  array_map (fun entry => setImmediate (handler entry) payload) entries w
  = (queued w (task_of payload <$> entries), Normal tt).
Proof.
  revert w. induction entries as [|entry entries IH]; intros w; cbn.
  - unfold ret, queued. destruct w; cbn. by rewrite app_nil_r.
  - unfold bind, setImmediate. rewrite IH. unfold queued. cbn.
    by rewrite <- app_assoc.
Qed.

Lemma emit_eq name (payload : JsValue) (perCall : option bool) w :
  emit name payload perCall w
  = let w1 := store this_eventHandlers w
                (materialise (eventHandlers (self w)) name) in
    match handlersOf (eventHandlers (self w)) name with
    | [] =>
        if emit_strict perCall (self w)
        then (w1, Throw (NoHandlerError name))
        else (w1, Normal tt)
    | entries => (queued w1 (task_of payload <$> entries), Normal tt)
    end.
Proof.
  unfold emit. unfold bind at 1. rewrite prepare_events.
  unfold bind at 1. unfold this_config at 1.
  unfold bind at 1. unfold ensureHandlersExists. unfold bind at 1.
  rewrite handlersAt_eq. cbn [store with_self self deref assign
    this_eventHandlers eventHandlers config].
  rewrite materialise_lookup.
  destruct (handlersOf (eventHandlers (self w)) name) as [|entry entries]
    eqn:Hentries; cbn [length Nat.ltb Nat.leb negb andb].
  - unfold emit_strict.
    destruct perCall as [[]|];
      [ done | | destruct (throwErrorIfNoEventHandlerFound _); [done |] ].
    all: unfold ret at 1; unfold bind; rewrite handlersAt_eq; cbn;
      rewrite materialise_lookup, Hentries; cbn;
      done.
  - unfold ret at 1. unfold bind. rewrite handlersAt_eq. cbn.
    rewrite materialise_lookup, Hentries.
    by rewrite array_map_setImmediate.
Qed.

Lemma removeEventHandler_eq name handlerId w :
  removeEventHandler name handlerId w
  = (store this_eventHandlers w
       (<[name := List.filter
                    (fun e => negb (String.eqb (id e) handlerId))
                    (handlersOf (eventHandlers (self w)) name)]>
          (eventHandlers (self w))),
     Normal tt).
Proof.
  unfold removeEventHandler. unfold bind at 1. rewrite prepare_events.
  unfold removeHandlerById. unfold bind at 1. rewrite handlersAt_eq.
  cbn [store with_self self deref assign this_eventHandlers eventHandlers].
  rewrite materialise_lookup. unfold materialise.
  destruct (eventHandlers (self w) !! name) eqn:Hslot;
    unfold bind, read, write, store, with_self; cbn;
    rewrite ?insert_insert_eq; done.
Qed.

Lemma removeAllEventHandlers_eq name w :
  removeAllEventHandlers name w
  = (store this_eventHandlers w (delete name (eventHandlers (self w))),
     Normal tt).
Proof.
  unfold removeAllEventHandlers. unfold bind at 1. rewrite prepare_events.
  unfold materialise.
  destruct (eventHandlers (self w) !! name) eqn:Hslot;
    unfold removeAllHandlers, bind, read, write, store, with_self; cbn;
    rewrite ?delete_insert_eq; done.
Qed.

Lemma removeMethodHandler_eq name w :
  removeMethodHandler name w
  = (store this_methodHandlers w (delete name (methodHandlers (self w))),
     Normal tt).
Proof. reflexivity. Qed.

Lemma handlersOf_cons {F : Type} (r : HandlersRegistry F) name
    (entry : HandlerEntry F) (entries : list (HandlerEntry F)) :
  handlersOf r name = entry :: entries <-> r !! name = Some (entry :: entries).
Proof.
  unfold handlersOf. destruct (r !! name); cbn; split; congruence.
Qed.

Lemma request_eq {R : Type} name (payload : JsValue) (perCall : option bool)
    (callback : option (JsValue -> JsValue -> R)) w :
  request name payload perCall callback w
  = match handlersOf (methodHandlers (self w)) name with
    | [] =>
        (store this_methodHandlers w
           (materialise (methodHandlers (self w)) name),
         Throw (if request_strict perCall (self w)
                then NoHandlerError name
                else TypeError))
    | entry :: _ => (w, Normal (answer callback payload entry))
    end.
Proof.
  unfold request. unfold bind at 1. rewrite prepare_methods.
  destruct (handlersOf (methodHandlers (self w)) name) as [|entry entries]
    eqn:Hentries.
  - unfold bind at 1. unfold this_config at 1.
    unfold bind at 1. unfold ensureHandlersExists. unfold bind at 1.
    rewrite handlersAt_eq. cbn [store with_self self deref assign
      this_methodHandlers methodHandlers config].
    rewrite materialise_lookup, Hentries. unfold request_strict.
    cbn [length Nat.ltb Nat.leb negb andb].
    destruct (or_default perCall _); [done |].
    unfold ret at 1. unfold bind. rewrite handlersAt_eq. cbn.
    rewrite materialise_lookup, Hentries. by destruct callback.
  - apply handlersOf_cons in Hentries.
    rewrite (materialise_present _ _ _ Hentries), store_methods_id.
    unfold bind at 1. unfold this_config at 1.
    unfold bind at 1. unfold ensureHandlersExists. unfold bind at 1.
    rewrite handlersAt_eq. cbn [deref this_methodHandlers].
    rewrite Hentries. cbn [length Nat.ltb Nat.leb negb andb].
    unfold ret at 1. unfold bind. rewrite handlersAt_eq.
    cbn [deref this_methodHandlers]. rewrite Hentries.
    by destruct callback.
Qed.

Lemma insert_materialise {F : Type} (r : HandlersRegistry F) name
    (entries : list (HandlerEntry F)) :
  <[name := entries]> (materialise r name) = <[name := entries]> r.
Proof.
  unfold materialise. destruct (r !! name); [done |].
  by rewrite insert_insert_eq.
Qed.

Lemma onRequest_eq (fuel : nat) name (h : RequestHandler) w :
  onRequest generateId fuel name h w
  = match handlersOf (methodHandlers (self w)) name with
    | _ :: _ => (w, Throw (AlreadyExistsError name))
    | [] =>
        match fuel with
        | O =>
            (store this_methodHandlers w
               (materialise (methodHandlers (self w)) name),
             Diverge)
        | S _ =>
            (store this_methodHandlers (drawn w 1)
               (<[name := [{| id := generateId (shortidCalls w);
                              handler := wrapper h |}]]>
                  (methodHandlers (self w))),
             Normal (generateId (shortidCalls w)))
        end
    end.
Proof.
  unfold onRequest. unfold bind at 1. rewrite prepare_methods.
  destruct (handlersOf (methodHandlers (self w)) name) as [|entry entries]
    eqn:Hentries.
  - set (w1 := store this_methodHandlers w
                 (materialise (methodHandlers (self w)) name)).
    assert (Hslot : deref this_methodHandlers (self w1) !! name = Some []).
    { cbn. by rewrite materialise_lookup, Hentries. }
    unfold bind at 1. unfold preventRegisteringMoreThanOneHandler.
    unfold bind at 1. rewrite handlersAt_eq, Hslot.
    cbn [length Nat.ltb Nat.leb andb]. unfold ret at 1. unfold bind at 1.
    destruct fuel as [|fuel]; [done |].
    rewrite (generateUniqueIdentifier_turn _ _ _ _ _ Hslot).
    cbn [findIndex findIndex_from Z.eqb].
    unfold bind, read, write, ret, store, with_self, drawn. subst w1. cbn.
    by rewrite insert_materialise.
  - apply handlersOf_cons in Hentries.
    rewrite (materialise_present _ _ _ Hentries), store_methods_id.
    unfold bind at 1. unfold preventRegisteringMoreThanOneHandler.
    unfold bind at 1. rewrite handlersAt_eq. cbn [deref this_methodHandlers].
    by rewrite Hentries.
Qed.

Lemma lookup_past_end {A : Type} (l : list A) (x : A) :
  (l ++ [x]) !! length (l ++ [x]) = None.
Proof. apply lookup_ge_None. lia. Qed.

Lemma onEvent_eq (fuel : nat) name (h : EventFn) (perCall : option bool) w :
  onEvent generateId fuel name h perCall w
  = let entries := handlersOf (eventHandlers (self w)) name in
    let w1 := store this_eventHandlers w
                (materialise (eventHandlers (self w)) name) in
    if (0 <? length entries)%nat
       && or_default perCall (preventDuplicatedEventListeners (config (self w)))
    then (w, Throw (AlreadyExistsError name))
    else
      match generateUniqueIdentifier generateId fuel this_eventHandlers name w1
      with
      | (w2, Normal generatedId) =>
          (store this_eventHandlers w2
             (<[name := entries ++ [{| id := generatedId; handler := h |}]]>
                (eventHandlers (self w))),
           Throw TypeError)
      | (w2, Throw e) => (w2, Throw e)
      | (w2, Diverge) => (w2, Diverge)
      end.
Proof.
  cbn zeta. unfold onEvent. unfold bind at 1. rewrite prepare_events.
  set (entries := handlersOf (eventHandlers (self w)) name).
  set (w1 := store this_eventHandlers w
               (materialise (eventHandlers (self w)) name)).
  assert (Hslot : deref this_eventHandlers (self w1) !! name = Some entries).
  { cbn. by rewrite materialise_lookup. }
  unfold bind at 1. unfold this_config at 1.
  unfold bind at 1. unfold preventRegisteringMoreThanOneHandler.
  unfold bind at 1. rewrite handlersAt_eq, Hslot.
  replace (config (self w1)) with (config (self w)) by done.
  destruct ((0 <? length entries)%nat && or_default perCall _) eqn:Hguard.
  - f_equal. destruct entries as [|entry entries'] eqn:He; [done |].
    apply handlersOf_cons in He. subst w1.
    by rewrite (materialise_present _ _ _ He), store_events_id.
  - unfold ret at 1. unfold bind at 1.
    destruct (generateUniqueIdentifier_first_fresh
                this_eventHandlers name entries fuel w1 Hslot)
      as [(k & _ & _ & _ & Hrun) | [_ Hrun]]; rewrite Hrun; [| done].
    unfold push. unfold bind at 1. unfold bind at 1. rewrite handlersAt_eq.
    replace (deref this_eventHandlers (self (drawn w1 (S k))) !! name)
      with (Some entries) by (symmetry; exact Hslot).
    unfold bind at 1. unfold read at 1. unfold bind at 1.
    unfold write at 1. unfold ret at 1. unfold bind at 1.
    rewrite handlersAt_eq.
    cbn [deref assign this_eventHandlers self with_self eventHandlers drawn].
    rewrite lookup_insert_eq, lookup_past_end. unfold throw.
    subst w1. cbn [store with_self self assign this_eventHandlers
      eventHandlers drawn shortidCalls immediateQueue config methodHandlers].
    by rewrite insert_materialise.
Qed.

(** The three ways a call of [onEvent] can go: rejected by the duplicate
    check; entry appended under a fresh identifier, then the [TypeError] of
    the read past the end; or the identifier loop still running. *)
Lemma onEvent_cases (fuel : nat) name (h : EventFn) (perCall : option bool) w :
  (handlersOf (eventHandlers (self w)) name <> []
   /\ onEvent generateId fuel name h perCall w
      = (w, Throw (AlreadyExistsError name)))
  \/ (exists k,
        (k < fuel)%nat
        /\ (generateId (shortidCalls w + k)
              ∉ (id <$> handlersOf (eventHandlers (self w)) name))
        /\ onEvent generateId fuel name h perCall w
           = (store this_eventHandlers (drawn w (S k))
                (<[name := handlersOf (eventHandlers (self w)) name
                             ++ [{| id := generateId (shortidCalls w + k);
                                    handler := h |}]]>
                   (eventHandlers (self w))),
              Throw TypeError))
  \/ (onEvent generateId fuel name h perCall w
      = (drawn (store this_eventHandlers w
                  (materialise (eventHandlers (self w)) name)) fuel,
         Diverge)).
Proof.
  rewrite onEvent_eq. cbn zeta.
  destruct ((0 <? length _)%nat && or_default perCall _) eqn:Hguard.
  - left. split; [| done]. intros Hnil. rewrite Hnil in Hguard. done.
  - right.
    set (w1 := store this_eventHandlers w
                 (materialise (eventHandlers (self w)) name)).
    assert (Hslot : deref this_eventHandlers (self w1) !! name
                    = Some (handlersOf (eventHandlers (self w)) name)).
    { cbn. by rewrite materialise_lookup. }
    destruct (generateUniqueIdentifier_first_fresh
                this_eventHandlers name _ fuel w1 Hslot)
      as [(k & Hk & _ & Hfresh & Hrun) | [_ Hrun]]; rewrite Hrun.
    + left. exists k. by repeat split.
    + by right.
Qed.

(** ** Identifier generation never collides *)

(** C6. [generateUniqueIdentifier], run on a name whose slot exists, never
    hands back an identifier carried by an entry currently under that name
    and never throws; a colliding draw makes it draw again, so as soon as
    shortid produces a draw that collides with no entry (within the fuel) it
    returns the first such draw. *)
Theorem generateUniqueIdentifier_never_collides {F : Type}
    (registry : RegistryRef EventFn F) name
    (entries : list (HandlerEntry F)) (fuel : nat) w :
  deref registry (self w) !! name = Some entries ->
  (forall w' generatedId,
      generateUniqueIdentifier generateId fuel registry name w
      = (w', Normal generatedId) ->
      generatedId ∉ (id <$> entries))
  /\ (forall w' e,
        generateUniqueIdentifier generateId fuel registry name w
        <> (w', Throw e))
  /\ (forall n,
        (n < fuel)%nat ->
        generateId (shortidCalls w + n) ∉ (id <$> entries) ->
        exists k,
          (k <= n)%nat
          /\ (forall j, (j < k)%nat ->
                generateId (shortidCalls w + j) ∈ (id <$> entries))
          /\ (generateUniqueIdentifier generateId fuel registry name w
              = (drawn w (S k), Normal (generateId (shortidCalls w + k))))).
Proof.
  intros Hslot.
  destruct (generateUniqueIdentifier_first_fresh registry name entries fuel w
              Hslot)
    as [(k & Hk & Hbefore & Hfresh & Hrun) | [Hall Hrun]]; rewrite Hrun.
  - split; [| split].
    + intros w' generatedId Heq. by inversion Heq; subst.
    + intros w' e Heq. discriminate.
    + intros n Hn Hnfresh. exists k. split; [| by split].
      destruct (decide (k <= n)%nat) as [Hle|Hgt]; [done |].
      exfalso. apply Hnfresh, Hbefore. lia.
  - split; [| split].
    + intros w' generatedId Heq. discriminate.
    + intros w' e Heq. discriminate.
    + intros n Hn Hnfresh. exfalso. by apply Hnfresh, Hall.
Qed.

(** ** Emitting without listeners *)

(** C5. On a name without listeners, [emit] on a dispatcher with the default
    configuration and no per-call configuration completes normally and puts
    nothing on the [setImmediate] queue: the world changes at most by the
    empty slot prepared for the name.  With
    [throwErrorIfNoEventHandlerFound] true, per call or on the dispatcher
    when no per-call configuration is given, the call itself throws the
    [NoHandlerError] of that name. *)
Theorem emit_without_handlers name (payload : JsValue) w :
  handlersOf (eventHandlers (self w)) name = [] ->
  (config (self w) = defaultIntercomConfig ->
   emit name payload None w
   = (store this_eventHandlers w (materialise (eventHandlers (self w)) name),
      Normal tt)
   /\ immediateQueue (fst (emit name payload None w)) = immediateQueue w
   /\ same_handlers w (fst (emit name payload None w)))
  /\ snd (emit name payload (Some true) w) = Throw (NoHandlerError name)
  /\ (throwErrorIfNoEventHandlerFound (config (self w)) = true ->
      snd (emit name payload None w) = Throw (NoHandlerError name)).
Proof.
  intros Hnone. split; [| split].
  - intros Hdefault. rewrite emit_eq. cbn zeta. rewrite Hnone.
    unfold emit_strict. rewrite Hdefault. cbn.
    split; [done |]. split; [done |]. unfold same_handlers. cbn.
    repeat split; intros n; by rewrite handlersOf_materialise.
  - rewrite emit_eq. cbn zeta. by rewrite Hnone.
  - intros Hstrict. rewrite emit_eq. cbn zeta. rewrite Hnone.
    unfold emit_strict. by rewrite Hstrict.
Qed.

(** ** Reading the first entry in [request] *)

(** C10. The read of element 0 in [request] is protected by the strict
    check alone.  Without an entry under the name: when the flag handed to
    [ensureHandlersExists] is false the call goes on to index the empty
    array and throws the [TypeError]; when it is true the
    [NoHandlerError] is thrown first.  With at least one entry the read
    succeeds and the call completes normally, whatever the flag. *)
Theorem request_first_entry_read {R : Type} name (payload : JsValue)
    (perCall : option bool) (callback : option (JsValue -> JsValue -> R)) w :
  (handlersOf (methodHandlers (self w)) name = [] ->
   request_strict perCall (self w) = false ->
   snd (request name payload perCall callback w) = Throw TypeError)
  /\ (handlersOf (methodHandlers (self w)) name = [] ->
      request_strict perCall (self w) = true ->
      snd (request name payload perCall callback w)
      = Throw (NoHandlerError name))
  /\ (forall entry rest,
        handlersOf (methodHandlers (self w)) name = entry :: rest ->
        request name payload perCall callback w
        = (w, Normal (answer callback payload entry))).
Proof.
  rewrite request_eq. split; [| split].
  - intros -> ->. done.
  - intros -> ->. done.
  - intros entry rest ->. done.
Qed.

(** ** The method registry is exclusive *)

Lemma void_fst {A : Type} (c : M EventFn A) w : fst (void c w) = fst (c w).
Proof. unfold void, bind, ret. by destruct (c w) as [w' [a|e|]]. Qed.

Lemma void_throws {A : Type} (c : M EventFn A) w (e : Thrown) :
  snd (void c w) = Throw e <-> snd (c w) = Throw e.
Proof.
  unfold void, bind, ret. destruct (c w) as [w' [a|e'|]]; cbn; split; congruence.
Qed.

Lemma exclusive_store_methods w (r : HandlersRegistry MethodFn) :
  (forall n entries, r !! n = Some entries -> (length entries <= 1)%nat) ->
  exclusive (self (store this_methodHandlers w r)).
Proof. intros H. exact H. Qed.

Lemma exclusive_materialise w name :
  exclusive (self w) ->
  exclusive
    (self (store this_methodHandlers w
             (materialise (methodHandlers (self w)) name))).
Proof.
  intros H. apply exclusive_store_methods. intros n entries.
  destruct (decide (name = n)) as [->|Hne].
  - rewrite materialise_lookup. intros [= <-]. unfold handlersOf.
    destruct (methodHandlers (self w) !! n) eqn:Hslot; cbn; [by eapply H | lia].
  - rewrite materialise_lookup_ne by done. apply H.
Qed.

(** Scheduling, drawing identifiers and writing the event registry leave
    the dispatcher's method registry as it is. *)
Lemma emit_methodHandlers name (payload : JsValue) (perCall : option bool) w :
  methodHandlers (self (fst (emit name payload perCall w)))
  = methodHandlers (self w).
Proof.
  rewrite emit_eq. cbn zeta.
  destruct (handlersOf (eventHandlers (self w)) name); [| done].
  by destruct (emit_strict perCall (self w)).
Qed.

Lemma onEvent_methodHandlers (fuel : nat) name (h : EventFn)
    (perCall : option bool) w :
  methodHandlers (self (fst (onEvent generateId fuel name h perCall w)))
  = methodHandlers (self w).
Proof.
  destruct (onEvent_cases fuel name h perCall w)
    as [[_ Hrun] | [(k & _ & _ & Hrun) | Hrun]]; by rewrite Hrun.
Qed.

(** Case analysis on a call of the public interface. *)
Ltac call_cases c :=
  destruct c as [n payload perCall | fuel n h perCall | n | n hid
                | n payload perCall callback | fuel n h | n];
  cbn [perform]; rewrite ?void_throws, ?void_fst.

(** Every call of the public interface keeps the method registry
    exclusive. *)
Lemma perform_exclusive (c : Call EventFn) w :
  exclusive (self w) -> exclusive (self (fst (perform generateId c w))).
Proof.
  intros Hex. call_cases c.
  - unfold exclusive. by rewrite emit_methodHandlers.
  - unfold exclusive. by rewrite onEvent_methodHandlers.
  - by rewrite removeAllEventHandlers_eq.
  - by rewrite removeEventHandler_eq.
  - rewrite request_eq.
    destruct (handlersOf (methodHandlers (self w)) n); [| done].
    by apply exclusive_materialise.
  - rewrite onRequest_eq.
    destruct (handlersOf (methodHandlers (self w)) n); [| done].
    destruct fuel; [by apply exclusive_materialise |].
    apply exclusive_store_methods. intros n' entries.
    destruct (decide (n = n')) as [->|Hne].
    + rewrite lookup_insert_eq. by intros [= <-].
    + rewrite lookup_insert_ne by done. apply Hex.
  - rewrite removeMethodHandler_eq. apply exclusive_store_methods.
    intros n' entries Hslot. apply lookup_delete_Some in Hslot as [_ Hslot].
    by eapply Hex.
Qed.

(** C7. The method registry holds at most one entry per name in every
    reachable world, and every call of the public interface -- [onRequest],
    [request] and [removeMethodHandler] among them, whatever the
    configuration and however the call completes -- keeps it so. *)
Theorem methodHandlers_exclusive :
  (forall w (c : Call EventFn),
      exclusive (self w) -> exclusive (self (fst (perform generateId c w))))
  /\ (forall w, reachable generateId w -> exclusive (self w)).
Proof.
  split; [intros w c; apply perform_exclusive |].
  intros w Hreach. induction Hreach as [cfg calls queue | w c Hreach IH].
  - intros n entries. cbn. by rewrite lookup_empty.
  - by apply perform_exclusive.
Qed.

(** ** Registering a second RPC handler *)

(** C1, as the code has it.  [onRequest] on a name that already holds a
    handler throws the [AlreadyExistsError] of that name and leaves the
    world as it was: the handler registered before stays, and a [request]
    issued afterwards is answered by it, not by the handler of the rejected
    call. *)
Theorem onRequest_rejects_second_handler (fuel : nat) name
    (h : RequestHandler) (entry : HandlerEntry MethodFn)
    (rest : list (HandlerEntry MethodFn)) w :
  methodHandlers (self w) !! name = Some (entry :: rest) ->
  onRequest generateId fuel name h w = (w, Throw (AlreadyExistsError name))
  /\ (forall (R : Type) (payload : JsValue) (perCall : option bool)
             (callback : option (JsValue -> JsValue -> R)),
        request name payload perCall callback
          (fst (onRequest generateId fuel name h w))
        = (w, Normal (answer callback payload entry))).
Proof.
  intros Hslot. apply handlersOf_cons in Hslot.
  assert (Hthrow : onRequest generateId fuel name h w
                   = (w, Throw (AlreadyExistsError name))).
  { rewrite onRequest_eq. by rewrite Hslot. }
  split; [done |]. intros R payload perCall callback.
  rewrite Hthrow. cbn [fst]. rewrite request_eq. by rewrite Hslot.
Qed.

(** ** Failed calls *)

(** C8, as the code has it.  A call that throws a [NoHandlerError] leaves
    the configuration, the entries under every name of both registries and
    the host state as they were, and every slot but that of the failing
    name untouched ([emit] and [request] prepare the slot of their name
    before they check it, so that slot may have gone from missing to
    empty).  A call that throws an [AlreadyExistsError] leaves
    the world exactly as it was; this is what [onEvent] does on a name that
    holds a listener when duplicates are prevented, so the first listener
    stays and no entry is added. *)
Theorem failed_call_keeps_entries (c : Call EventFn) name w :
  (snd (perform generateId c w) = Throw (NoHandlerError name) ->
   same_handlers w (fst (perform generateId c w))
   /\ same_slots_but name w (fst (perform generateId c w)))
  /\ (snd (perform generateId c w) = Throw (AlreadyExistsError name) ->
      fst (perform generateId c w) = w)
  /\ (forall fuel (h : EventFn) perCall entry rest,
        eventHandlers (self w) !! name = Some (entry :: rest) ->
        or_default perCall (preventDuplicatedEventListeners (config (self w)))
        = true ->
        onEvent generateId fuel name h perCall w
        = (w, Throw (AlreadyExistsError name))).
Proof.
  split; [| split].
  - call_cases c.
    + rewrite emit_eq. cbn zeta.
      destruct (handlersOf (eventHandlers (self w)) n); [| done].
      destruct (emit_strict perCall (self w)); [| done].
      intros Heq. assert (n = name) as ->
        by (apply NoHandlerError_inj; cbn [snd] in Heq; congruence).
      clear Heq. cbn. split.
      * repeat split; intros n'; cbn; by rewrite handlersOf_materialise.
      * intros other Hne. cbn. by rewrite materialise_lookup_ne.
    + destruct (onEvent_cases fuel n h perCall w)
        as [[_ Hrun] | [(k & _ & _ & Hrun) | Hrun]]; by rewrite Hrun.
    + by rewrite removeAllEventHandlers_eq.
    + by rewrite removeEventHandler_eq.
    + rewrite request_eq.
      destruct (handlersOf (methodHandlers (self w)) n); [| done].
      destruct (request_strict perCall (self w)); [| done].
      intros Heq. assert (n = name) as ->
        by (apply NoHandlerError_inj; cbn [snd] in Heq; congruence).
      clear Heq. cbn. split.
      * repeat split; intros n'; cbn; by rewrite handlersOf_materialise.
      * intros other Hne. cbn. by rewrite materialise_lookup_ne.
    + rewrite onRequest_eq.
      destruct (handlersOf (methodHandlers (self w)) n); [| done].
      by destruct fuel.
    + by rewrite removeMethodHandler_eq.
  - call_cases c.
    + rewrite emit_eq. cbn zeta.
      destruct (handlersOf (eventHandlers (self w)) n); [| done].
      by destruct (emit_strict perCall (self w)).
    + destruct (onEvent_cases fuel n h perCall w)
        as [[_ Hrun] | [(k & _ & _ & Hrun) | Hrun]]; by rewrite Hrun.
    + by rewrite removeAllEventHandlers_eq.
    + by rewrite removeEventHandler_eq.
    + rewrite request_eq.
      destruct (handlersOf (methodHandlers (self w)) n); [| done].
      by destruct (request_strict perCall (self w)).
    + rewrite onRequest_eq.
      destruct (handlersOf (methodHandlers (self w)) n); [| done].
      by destruct fuel.
    + by rewrite removeMethodHandler_eq.
  - intros fuel h perCall entry rest Hslot Hflag.
    apply handlersOf_cons in Hslot. rewrite onEvent_eq. cbn zeta.
    by rewrite Hslot, Hflag.
Qed.

(** ** Removing a listener *)

Lemma filter_other_ids {F : Type} (handlerId : string)
    (l : list (HandlerEntry F)) :
  handlerId ∉ (id <$> l) ->
  List.filter (fun e => negb (String.eqb (id e) handlerId)) l = l.
Proof.
  induction l as [|e l IH]; [done |]. cbn [fmap list_fmap List.filter].
  intros Hnot. apply not_elem_of_cons in Hnot as [Hne Hnot].
  destruct (String.eqb (id e) handlerId) eqn:Heq.
  - apply String.eqb_eq in Heq. congruence.
  - cbn. by rewrite IH.
Qed.

Lemma removeEventHandler_entries name handlerId w :
  handlersOf
    (eventHandlers (self (fst (removeEventHandler name handlerId w)))) name
  = List.filter (fun e => negb (String.eqb (id e) handlerId))
      (handlersOf (eventHandlers (self w)) name).
Proof.
  rewrite removeEventHandler_eq. cbn. unfold handlersOf at 1.
  by rewrite lookup_insert_eq.
Qed.

(** Removal where the list splits around an entry with the identifier:
    either some other entry carries the identifier too, or just that entry
    goes. *)
Lemma removeEventHandler_at_split name handlerId w
    (before : list (HandlerEntry EventFn)) (entry : HandlerEntry EventFn)
    (after : list (HandlerEntry EventFn)) :
  handlersOf (eventHandlers (self w)) name = before ++ entry :: after ->
  id entry = handlerId ->
  handlerId ∈ (id <$> before ++ after)
  \/ handlersOf
       (eventHandlers (self (fst (removeEventHandler name handlerId w)))) name
     = before ++ after.
Proof.
  intros Hentries Hid.
  destruct (decide (handlerId ∈ (id <$> before ++ after))) as [Hin|Hnot];
    [by left | right].
  rewrite removeEventHandler_entries, Hentries.
  rewrite List.filter_app. cbn [List.filter].
  rewrite Hid, String.eqb_refl. cbn [negb].
  rewrite <- List.filter_app. by apply filter_other_ids.
Qed.


(** C9. [removeEventHandler] completes normally and leaves under the name
    the former entries whose identifier differs from the given one, in
    their order.  So it changes nothing under the name when no entry
    carries the identifier, it takes out just the entry that carries it
    when no other does, and it touches neither the slots of the other
    names nor the rest of the world. *)
Theorem removeEventHandler_removes_the_entry name handlerId w :
  snd (removeEventHandler name handlerId w) = Normal tt
  /\ handlersOf
       (eventHandlers (self (fst (removeEventHandler name handlerId w)))) name
     = List.filter (fun e => negb (String.eqb (id e) handlerId))
         (handlersOf (eventHandlers (self w)) name)
  /\ (handlerId ∉ (id <$> handlersOf (eventHandlers (self w)) name) ->
      handlersOf
        (eventHandlers (self (fst (removeEventHandler name handlerId w)))) name
      = handlersOf (eventHandlers (self w)) name)
  /\ (forall before entry after,
        handlersOf (eventHandlers (self w)) name = before ++ entry :: after ->
        id entry = handlerId ->
        handlerId ∉ (id <$> before ++ after) ->
        handlersOf
          (eventHandlers (self (fst (removeEventHandler name handlerId w))))
          name
        = before ++ after)
  /\ (forall other, other <> name ->
        eventHandlers (self (fst (removeEventHandler name handlerId w)))
          !! other
        = eventHandlers (self w) !! other)
  /\ methodHandlers (self (fst (removeEventHandler name handlerId w)))
     = methodHandlers (self w)
  /\ config (self (fst (removeEventHandler name handlerId w)))
     = config (self w)
  /\ shortidCalls (fst (removeEventHandler name handlerId w)) = shortidCalls w
  /\ immediateQueue (fst (removeEventHandler name handlerId w))
     = immediateQueue w.
Proof.
  repeat split; try by rewrite removeEventHandler_eq.
  - apply removeEventHandler_entries.
  - intros Hnot. rewrite removeEventHandler_entries.
    by apply filter_other_ids.
  - intros before entry after Hentries Hid Hnot.
    by destruct (removeEventHandler_at_split name handlerId w
                   before entry after Hentries Hid).
  - intros other Hne. rewrite removeEventHandler_eq. cbn.
    by rewrite lookup_insert_ne.
Qed.

(** ** Identifiers are unique within a name *)

Lemma filter_ids_incl {F : Type} (p : HandlerEntry F -> bool)
    (l : list (HandlerEntry F)) (x : string) :
  x ∈ (id <$> List.filter p l) -> x ∈ (id <$> l).
Proof.
  induction l as [|e l IH]; cbn; [done |].
  destruct (p e); cbn; rewrite ?elem_of_cons; intuition.
Qed.

Lemma filter_ids_NoDup {F : Type} (p : HandlerEntry F -> bool)
    (l : list (HandlerEntry F)) :
  NoDup (id <$> l) -> NoDup (id <$> List.filter p l).
Proof.
  induction l as [|e l IH]; cbn; [done |].
  rewrite NoDup_cons. intros [Hnot Hnodup]. destruct (p e); cbn; [| auto].
  apply NoDup_cons. split; [| auto].
  intros Hin. by apply Hnot, (filter_ids_incl p).
Qed.

Lemma unique_ids_materialise {F : Type} (r : HandlersRegistry F) name :
  unique_ids r -> unique_ids (materialise r name).
Proof.
  intros Huniq n entries. unfold materialise.
  destruct (r !! name) eqn:Hslot; [apply Huniq |].
  destruct (decide (name = n)) as [->|Hne].
  - rewrite lookup_insert_eq. intros [= <-]. constructor.
  - rewrite lookup_insert_ne by done. apply Huniq.
Qed.

Lemma unique_ids_insert {F : Type} (r : HandlersRegistry F) name
    (entries : list (HandlerEntry F)) :
  unique_ids r -> NoDup (id <$> entries) ->
  unique_ids (<[name := entries]> r).
Proof.
  intros Huniq Hnodup n entries'.
  destruct (decide (name = n)) as [->|Hne].
  - rewrite lookup_insert_eq. by intros [= <-].
  - rewrite lookup_insert_ne by done. apply Huniq.
Qed.

Lemma unique_ids_handlersOf {F : Type} (r : HandlersRegistry F) name :
  unique_ids r -> NoDup (id <$> handlersOf r name).
Proof.
  intros Huniq. unfold handlersOf.
  destruct (r !! name) eqn:Hslot; cbn; [by eapply Huniq | constructor].
Qed.

(** Every call of the public interface keeps the identifiers under each
    event name distinct: [onEvent] appends under an identifier that the
    loop found unused, the removals only take entries away. *)
Lemma perform_unique_ids (c : Call EventFn) w :
  unique_ids (eventHandlers (self w)) ->
  unique_ids (eventHandlers (self (fst (perform generateId c w)))).
Proof.
  intros Huniq. call_cases c.
  - rewrite emit_eq. cbn zeta.
    destruct (handlersOf (eventHandlers (self w)) n);
      [destruct (emit_strict perCall (self w)) |];
      by apply unique_ids_materialise.
  - destruct (onEvent_cases fuel n h perCall w)
      as [[_ Hrun] | [(k & _ & Hfresh & Hrun) | Hrun]]; rewrite Hrun.
    + done.
    + apply unique_ids_insert; [done |].
      rewrite fmap_app. apply NoDup_app. split; [| split].
      * by apply unique_ids_handlersOf.
      * intros x Hx. cbn. rewrite list_elem_of_singleton. by intros ->.
      * cbn. apply NoDup_singleton.
    + by apply unique_ids_materialise.
  - rewrite removeAllEventHandlers_eq. intros n' entries Hslot. cbn in Hslot.
    apply lookup_delete_Some in Hslot as [_ Hslot]. by eapply Huniq.
  - rewrite removeEventHandler_eq. apply unique_ids_insert; [done |].
    by apply filter_ids_NoDup, unique_ids_handlersOf.
  - rewrite request_eq.
    by destruct (handlersOf (methodHandlers (self w)) n).
  - rewrite onRequest_eq.
    destruct (handlersOf (methodHandlers (self w)) n); [| done].
    by destruct fuel.
  - by rewrite removeMethodHandler_eq.
Qed.

Lemma reachable_unique_ids w :
  reachable generateId w -> unique_ids (eventHandlers (self w)).
Proof.
  induction 1 as [cfg calls queue | w c Hreach IH].
  - intros n entries. cbn. by rewrite lookup_empty.
  - by apply perform_unique_ids.
Qed.

(** In a reachable world the identifier picks out one entry at most, and
    [removeEventHandler] takes out that entry and no other. *)
Lemma removeEventHandler_reachable name handlerId w
    (before after : list (HandlerEntry EventFn)) (entry : HandlerEntry EventFn) :
  reachable generateId w ->
  handlersOf (eventHandlers (self w)) name = before ++ entry :: after ->
  id entry = handlerId ->
  handlersOf
    (eventHandlers (self (fst (removeEventHandler name handlerId w)))) name
  = before ++ after.
Proof.
  intros Hreach Hentries Hid.
  destruct (removeEventHandler_at_split name handlerId w
              before entry after Hentries Hid) as [H|H]; [| done].
  exfalso.
  pose proof (unique_ids_handlersOf _ name (reachable_unique_ids w Hreach))
    as Hnodup.
  rewrite Hentries, fmap_app, fmap_cons, Hid in Hnodup.
  apply NoDup_app in Hnodup as (_ & Hdisj & Hnodup).
  apply NoDup_cons in Hnodup as [Hafter _].
  rewrite fmap_app in H. apply elem_of_app in H as [H|H].
  - apply (Hdisj _ H). by left.
  - by apply Hafter.
Qed.

(** ** Where the code departs from its documentation *)

(** [onEvent] never completes normally: past the duplicate check and the
    identifier loop it appends the entry, then reads the array at its new
    length, one past the entry, and throws on the [id] of [undefined]. *)
Lemma onEvent_never_returns (fuel : nat) name (h : EventFn)
    (perCall : option bool) w (generatedId : string) :
  snd (onEvent generateId fuel name h perCall w) <> Normal generatedId.
Proof.
  destruct (onEvent_cases fuel name h perCall w)
    as [[_ Hrun] | [(k & _ & _ & Hrun) | Hrun]]; by rewrite Hrun.
Qed.

(** The wrapper around a callback-shaped handler settles on the first
    completion call; a falsy [err] fulfils the promise with [err] itself,
    whatever [result] was passed along. *)
Lemma wrapper_callback_fulfils_with_err
    (f : JsValue -> list (JsValue * JsValue)) (payload err result : JsValue)
    (more : list (JsValue * JsValue)) :
  f payload = (err, result) :: more ->
  truthy err = false ->
  wrapper (CallbackMethod f) payload = Fulfilled err.
Proof. intros Hcalls Hfalsy. unfold wrapper. rewrite Hcalls. cbn. by rewrite Hfalsy. Qed.

(** A per-call [throwErrorIfNoMethodHandlerFound: false] is absorbed by the
    disjunction in [request]: the dispatcher's flag decides. *)
Lemma request_strict_per_call_false (this : Intercom EventFn) :
  request_strict (Some false) this
  = throwErrorIfNoMethodHandlerFound (config this).
Proof. reflexivity. Qed.

(** * Further properties of the registry engine *)

(** ** Invariants of the reachable worlds *)

Lemma exclusive_unique_ids (this : Intercom EventFn) :
  exclusive this -> unique_ids (methodHandlers this).
Proof.
  intros Hex n entries Hslot. specialize (Hex n entries Hslot).
  destruct entries as [|e [|e' entries]]; cbn in *.
  - constructor.
  - apply NoDup_singleton.
  - lia.
Qed.

Lemma reachable_exclusive w : reachable generateId w -> exclusive (self w).
Proof.
  induction 1 as [cfg calls queue | w c Hreach IH].
  - intros n entries. cbn. by rewrite lookup_empty.
  - by apply perform_exclusive.
Qed.

(** X1. In every reachable world the entries registered under one name
    carry pairwise distinct identifiers, in the event registry and in the
    method registry. *)
Theorem reachable_ids_distinct w :
  reachable generateId w ->
  unique_ids (eventHandlers (self w)) /\ unique_ids (methodHandlers (self w)).
Proof.
  intros Hreach. split.
  - by apply reachable_unique_ids.
  - by apply exclusive_unique_ids, reachable_exclusive.
Qed.

(** ** What a call leaves alone *)


(** ** How the public methods can complete *)


(** ** Registering and calling an RPC handler *)

(** [onRequest] on a name that holds no handler, with fuel for one draw. *)
Lemma onRequest_free name (h : RequestHandler) (fuel : nat) w :
  handlersOf (methodHandlers (self w)) name = [] ->
  onRequest generateId (S fuel) name h w
  = (store this_methodHandlers (drawn w 1)
       (<[name := [{| id := generateId (shortidCalls w);
                      handler := wrapper h |}]]>
          (methodHandlers (self w))),
     Normal (generateId (shortidCalls w))).
Proof. intros Hfree. rewrite onRequest_eq. by rewrite Hfree. Qed.

(** [request] on a world whose method registry has just been given one
    entry under the name. *)
Lemma request_registered {R : Type} name (h : RequestHandler)
    (payload : JsValue) (perCall : option bool)
    (callback : option (JsValue -> JsValue -> R)) (registeredId : string) w
    (r : HandlersRegistry MethodFn) :
  request name payload perCall callback
    (store this_methodHandlers w
       (<[name := [{| id := registeredId; handler := wrapper h |}]]> r))
  = (store this_methodHandlers w
       (<[name := [{| id := registeredId; handler := wrapper h |}]]> r),
     Normal (answer callback payload
               {| id := registeredId; handler := wrapper h |})).
Proof.
  rewrite request_eq. cbn [store with_self self assign this_methodHandlers
    methodHandlers]. unfold handlersOf. by rewrite lookup_insert_eq.
Qed.

(** X4. On a name that holds no handler, [onRequest] with a promise-shaped
    handler draws one identifier, returns it and stores one entry under the
    name.  From then on [request] for that name hands back, in promise
    mode, the very promise the handler returns for the payload, and in
    callback mode calls the callback with [(undefined, result)] when that
    promise is fulfilled and with [(err, undefined)] when it is rejected,
    whatever the per-call configuration. *)
Theorem onRequest_then_request name (f : JsValue -> Promise) (fuel : nat) w :
  handlersOf (methodHandlers (self w)) name = [] ->
  snd (onRequest generateId (S fuel) name (PromiseMethod f) w)
  = Normal (generateId (shortidCalls w))
  /\ shortidCalls (fst (onRequest generateId (S fuel) name (PromiseMethod f) w))
     = S (shortidCalls w)
  /\ (id <$> handlersOf
        (methodHandlers
           (self (fst (onRequest generateId (S fuel) name
                         (PromiseMethod f) w)))) name)
     = [generateId (shortidCalls w)]
  /\ (forall payload perCall,
        snd (request (R := unit) name payload perCall None
               (fst (onRequest generateId (S fuel) name (PromiseMethod f) w)))
        = Normal (ReturnedPromise (f payload)))
  /\ (forall (R : Type) (callback : JsValue -> JsValue -> R) payload perCall
             result,
        f payload = Fulfilled result ->
        snd (request name payload perCall (Some callback)
               (fst (onRequest generateId (S fuel) name (PromiseMethod f) w)))
        = Normal (ReturnedVoid (Some (callback JsUndefined result))))
  /\ (forall (R : Type) (callback : JsValue -> JsValue -> R) payload perCall
             err,
        f payload = Rejected err ->
        snd (request name payload perCall (Some callback)
               (fst (onRequest generateId (S fuel) name (PromiseMethod f) w)))
        = Normal (ReturnedVoid (Some (callback err JsUndefined)))).
Proof.
  intros Hfree. rewrite (onRequest_free _ _ _ _ Hfree). cbn [fst snd].
  split; [done |]. split; [cbn; lia |]. split.
  { cbn. unfold handlersOf. by rewrite lookup_insert_eq. }
  split; [| split].
  - intros payload perCall.
    by rewrite (request_registered name (PromiseMethod f) payload perCall None).
  - intros R callback payload perCall result Hful.
    rewrite (request_registered name (PromiseMethod f) payload perCall
               (Some callback)).
    cbn. by rewrite Hful.
  - intros R callback payload perCall err Hrej.
    rewrite (request_registered name (PromiseMethod f) payload perCall
               (Some callback)).
    cbn. by rewrite Hrej.
Qed.



(** ** Emitting to listeners *)

(** X7. On a name that holds listeners, [emit] never throws, whatever the
    flags: it leaves the dispatcher as it is and appends to the
    [setImmediate] queue one task per listener, in registration order, each
    with the payload of the call. *)
Theorem emit_schedules_listeners name (payload : JsValue)
    (perCall : option bool) (entry : HandlerEntry EventFn)
    (rest : list (HandlerEntry EventFn)) w :
  eventHandlers (self w) !! name = Some (entry :: rest) ->
  emit name payload perCall w
  = (queued w (task_of payload <$> entry :: rest), Normal tt).
Proof.
  intros Hslot. rewrite emit_eq. cbn zeta.
  rewrite (materialise_present _ _ _ Hslot), store_events_id.
  apply handlersOf_cons in Hslot. by rewrite Hslot.
Qed.

(** X8. In [emit] the per-call flag, when given, decides alone: with
    [false] the call never throws, with [true] it throws the
    [NoHandlerError] exactly when the name holds no listener, whatever the
    dispatcher's configuration says; the dispatcher's flag counts only when
    no per-call configuration is given. *)
Theorem emit_per_call_flag_decides name (payload : JsValue) w :
  snd (emit name payload (Some false) w) = Normal tt
  /\ (snd (emit name payload (Some true) w) = Throw (NoHandlerError name)
      <-> handlersOf (eventHandlers (self w)) name = [])
  /\ (snd (emit name payload None w) = Throw (NoHandlerError name)
      <-> handlersOf (eventHandlers (self w)) name = []
          /\ throwErrorIfNoEventHandlerFound (config (self w)) = true).
Proof.
  rewrite !emit_eq. cbn zeta. unfold emit_strict.
  destruct (handlersOf (eventHandlers (self w)) name) as [|entry entries];
    cbn [snd].
  - split; [done |]. split; [done |].
    destruct (throwErrorIfNoEventHandlerFound (config (self w))); cbn;
      split; try done; by intros [_ ?].
  - split; [done |]. split; split; try done. by intros [? _].
Qed.

(** ** Registering a listener *)

(** [onEvent] past the duplicate check, with a draw that collides with no
    entry within the fuel. *)
Lemma onEvent_passes (fuel : nat) name (h : EventFn) (perCall : option bool)
    (n : nat) w :
  (0 <? length (handlersOf (eventHandlers (self w)) name))%nat
  && or_default perCall (preventDuplicatedEventListeners (config (self w)))
  = false ->
  (n < fuel)%nat ->
  generateId (shortidCalls w + n)
    ∉ (id <$> handlersOf (eventHandlers (self w)) name) ->
  exists k,
    (k <= n)%nat
    /\ (generateId (shortidCalls w + k)
          ∉ (id <$> handlersOf (eventHandlers (self w)) name))
    /\ onEvent generateId fuel name h perCall w
       = (store this_eventHandlers (drawn w (S k))
            (<[name := handlersOf (eventHandlers (self w)) name
                         ++ [{| id := generateId (shortidCalls w + k);
                                handler := h |}]]>
               (eventHandlers (self w))),
          Throw TypeError).
Proof.
  intros Hguard Hn Hfresh. rewrite onEvent_eq. cbn zeta. rewrite Hguard.
  set (w1 := store this_eventHandlers w
               (materialise (eventHandlers (self w)) name)).
  assert (Hslot : deref this_eventHandlers (self w1) !! name
                  = Some (handlersOf (eventHandlers (self w)) name)).
  { cbn. by rewrite materialise_lookup. }
  destruct (generateUniqueIdentifier_first_fresh
              this_eventHandlers name _ fuel w1 Hslot)
    as [(k & Hk & Hbefore & Hkfresh & Hrun) | [Hall Hrun]].
  - exists k. rewrite Hrun. split; [| by split].
    destruct (decide (k <= n)%nat) as [Hle|Hgt]; [done |].
    exfalso. apply Hfresh, Hbefore. lia.
  - exfalso. by apply Hfresh, Hall.
Qed.


(** X10. [onEvent] throws the [AlreadyExistsError] exactly when the name
    already holds a listener and duplicates are prevented per call or on
    the dispatcher: a per-call [false] does not lift a prevention set on
    the dispatcher. *)
Theorem onEvent_duplicate_policy (fuel : nat) name (h : EventFn)
    (perCall : option bool) w :
  snd (onEvent generateId fuel name h perCall w)
  = Throw (AlreadyExistsError name)
  <-> handlersOf (eventHandlers (self w)) name <> []
      /\ (perCall = Some true
          \/ preventDuplicatedEventListeners (config (self w)) = true).
Proof.
  destruct (onEvent_cases fuel name h perCall w)
    as [[Hne Hrun] | [(k & _ & _ & Hrun) | Hrun]].
  - rewrite Hrun. split; [intros _ | done]. split; [done |].
    rewrite onEvent_eq in Hrun. cbn zeta in Hrun.
    destruct (handlersOf (eventHandlers (self w)) name) as [|e l]; [done |].
    cbn in Hrun. unfold or_default in Hrun.
    destruct perCall as [[]|]; auto;
      destruct (preventDuplicatedEventListeners (config (self w))); auto;
      cbn in Hrun.
    all: set (w1 := store _ _ _) in Hrun;
      assert (Hslot : deref this_eventHandlers (self w1) !! name
                      = Some (handlersOf (eventHandlers (self w)) name))
        by (cbn; by rewrite materialise_lookup);
      destruct (generateUniqueIdentifier_first_fresh
                  this_eventHandlers name _ fuel w1 Hslot)
        as [(k & _ & _ & _ & Hgen) | [_ Hgen]];
      rewrite Hgen in Hrun; discriminate Hrun.
  - rewrite Hrun. split; [done |]. intros [Hne Hflag]. exfalso.
    rewrite onEvent_eq in Hrun. cbn zeta in Hrun.
    destruct (handlersOf (eventHandlers (self w)) name) as [|e l]; [done |].
    cbn in Hrun. unfold or_default in Hrun.
    destruct Hflag as [-> | Hflag]; [discriminate Hrun |].
    rewrite Hflag, orb_true_r in Hrun. discriminate Hrun.
  - rewrite Hrun. split; [done |]. intros [Hne Hflag]. exfalso.
    rewrite onEvent_eq in Hrun. cbn zeta in Hrun.
    destruct (handlersOf (eventHandlers (self w)) name) as [|e l]; [done |].
    cbn in Hrun. unfold or_default in Hrun.
    destruct Hflag as [-> | Hflag]; [discriminate Hrun |].
    rewrite Hflag, orb_true_r in Hrun. discriminate Hrun.
Qed.

(** ** Removals *)


Lemma filter_ids_twice {F : Type} (a b : string) (l : list (HandlerEntry F)) :
  List.filter (fun e => negb (String.eqb (id e) a))
    (List.filter (fun e => negb (String.eqb (id e) b)) l)
  = List.filter (fun e => negb (String.eqb (id e) b))
      (List.filter (fun e => negb (String.eqb (id e) a)) l).
Proof.
  induction l as [|e l IH]; [done |]. cbn.
  destruct (String.eqb (id e) a) eqn:Ha, (String.eqb (id e) b) eqn:Hb; cbn;
    rewrite ?Ha, ?Hb; cbn; by rewrite IH.
Qed.

Lemma filter_ids_again {F : Type} (a : string) (l : list (HandlerEntry F)) :
  List.filter (fun e => negb (String.eqb (id e) a))
    (List.filter (fun e => negb (String.eqb (id e) a)) l)
  = List.filter (fun e => negb (String.eqb (id e) a)) l.
Proof.
  induction l as [|e l IH]; [done |]. cbn.
  destruct (String.eqb (id e) a) eqn:Ha; cbn; rewrite ?Ha; cbn; by rewrite IH.
Qed.

Lemma handlersOf_insert {F : Type} (r : HandlersRegistry F) name
    (entries : list (HandlerEntry F)) :
  handlersOf (<[name := entries]> r) name = entries.
Proof. unfold handlersOf. by rewrite lookup_insert_eq. Qed.

(** The world after two removals under the same name. *)
Lemma removeEventHandler_twice name (a b : string) w :
  fst (removeEventHandler name b (fst (removeEventHandler name a w)))
  = store this_eventHandlers w
      (<[name := List.filter (fun e => negb (String.eqb (id e) b))
                   (List.filter (fun e => negb (String.eqb (id e) a))
                      (handlersOf (eventHandlers (self w)) name))]>
         (eventHandlers (self w))).
Proof.
  rewrite !removeEventHandler_eq. cbn [fst store with_self self assign
    this_eventHandlers eventHandlers].
  by rewrite handlersOf_insert, insert_insert_eq.
Qed.

(** X12. Removing a listener twice is the same as removing it once, and
    removals under one name can be done in either order: the worlds are
    equal. *)
Theorem removeEventHandler_idempotent_commutes name (a b : string) w :
  fst (removeEventHandler name a (fst (removeEventHandler name a w)))
  = fst (removeEventHandler name a w)
  /\ fst (removeEventHandler name b (fst (removeEventHandler name a w)))
     = fst (removeEventHandler name a (fst (removeEventHandler name b w))).
Proof.
  split.
  - rewrite removeEventHandler_twice, filter_ids_again.
    by rewrite removeEventHandler_eq.
  - by rewrite !removeEventHandler_twice, filter_ids_twice.
Qed.

(** X13. A listener that [onEvent] has registered is taken out again by
    [removeEventHandler] with the identifier it was stored under: the
    entries of the name are then those from before the registration. *)
Theorem onEvent_then_removeEventHandler (fuel : nat) name (h : EventFn)
    (perCall : option bool) (n : nat) w :
  (0 <? length (handlersOf (eventHandlers (self w)) name))%nat
  && or_default perCall (preventDuplicatedEventListeners (config (self w)))
  = false ->
  (n < fuel)%nat ->
  generateId (shortidCalls w + n)
    ∉ (id <$> handlersOf (eventHandlers (self w)) name) ->
  exists k,
    (k <= n)%nat
    /\ (id <$> handlersOf
          (eventHandlers (self (fst (onEvent generateId fuel name h perCall w))))
          name)
       = (id <$> handlersOf (eventHandlers (self w)) name)
           ++ [generateId (shortidCalls w + k)]
    /\ handlersOf
         (eventHandlers
            (self (fst (removeEventHandler name
                          (generateId (shortidCalls w + k))
                          (fst (onEvent generateId fuel name h perCall w))))))
         name
       = handlersOf (eventHandlers (self w)) name.
Proof.
  intros Hguard Hn Hfresh.
  destruct (onEvent_passes fuel name h perCall n w Hguard Hn Hfresh)
    as (k & Hk & Hkfresh & Hrun).
  exists k. rewrite Hrun. cbn [fst].
  assert (Hnew : handlersOf
            (eventHandlers
               (self (store this_eventHandlers (drawn w (S k))
                  (<[name := handlersOf (eventHandlers (self w)) name
                       ++ [{| id := generateId (shortidCalls w + k);
                              handler := h |}]]>
                     (eventHandlers (self w)))))) name
          = handlersOf (eventHandlers (self w)) name
              ++ [{| id := generateId (shortidCalls w + k); handler := h |}]).
  { cbn. unfold handlersOf at 1. by rewrite lookup_insert_eq. }
  split; [done |]. split.
  - by rewrite Hnew, fmap_app.
  - rewrite removeEventHandler_entries, Hnew, List.filter_app.
    rewrite (filter_other_ids _ _ Hkfresh). cbn [List.filter id].
    rewrite String.eqb_refl. cbn [negb]. by rewrite app_nil_r.
Qed.

(** ** Preparing a slot *)

(** X14. [prepareHandlersRegistry] always completes normally, leaves a slot
    under the name, keeps the entries of every name, changes nothing when
    the slot is already there, and changes nothing when run a second
    time; this holds for either registry. *)
Theorem prepareHandlersRegistry_idempotent name w :
  (snd (prepareHandlersRegistry this_eventHandlers name w) = Normal tt
   /\ is_Some
        (eventHandlers
           (self (fst (prepareHandlersRegistry this_eventHandlers name w)))
           !! name)
   /\ (forall n,
         handlersOf
           (eventHandlers
              (self (fst (prepareHandlersRegistry this_eventHandlers name w))))
           n
         = handlersOf (eventHandlers (self w)) n)
   /\ (is_Some (eventHandlers (self w) !! name) ->
       fst (prepareHandlersRegistry this_eventHandlers name w) = w)
   /\ fst (prepareHandlersRegistry this_eventHandlers name
             (fst (prepareHandlersRegistry this_eventHandlers name w)))
      = fst (prepareHandlersRegistry this_eventHandlers name w))
  /\ (snd (prepareHandlersRegistry this_methodHandlers name w) = Normal tt
      /\ is_Some
           (methodHandlers
              (self (fst (prepareHandlersRegistry this_methodHandlers name w)))
              !! name)
      /\ (forall n,
            handlersOf
              (methodHandlers
                 (self (fst (prepareHandlersRegistry this_methodHandlers
                               name w))))
              n
            = handlersOf (methodHandlers (self w)) n)
      /\ (is_Some (methodHandlers (self w) !! name) ->
          fst (prepareHandlersRegistry this_methodHandlers name w) = w)
      /\ fst (prepareHandlersRegistry this_methodHandlers name
                (fst (prepareHandlersRegistry this_methodHandlers name w)))
         = fst (prepareHandlersRegistry this_methodHandlers name w)).
Proof.
  split.
  - rewrite !prepare_events. cbn [fst snd].
    split; [done |]. split; [cbn; by rewrite materialise_lookup |].
    split; [intros n; cbn; by rewrite handlersOf_materialise |].
    split.
    + intros [entries Hslot].
      rewrite (materialise_present _ _ _ Hslot). apply store_events_id.
    + cbn [store with_self self assign this_eventHandlers eventHandlers].
      by rewrite (materialise_present _ _ _ (materialise_lookup _ name)).
  - rewrite !prepare_methods. cbn [fst snd].
    split; [done |]. split; [cbn; by rewrite materialise_lookup |].
    split; [intros n; cbn; by rewrite handlersOf_materialise |].
    split.
    + intros [entries Hslot].
      rewrite (materialise_present _ _ _ Hslot). apply store_methods_id.
    + cbn [store with_self self assign this_methodHandlers methodHandlers].
      by rewrite (materialise_present _ _ _ (materialise_lookup _ name)).
Qed.

(** ** Instances made by the module entry point *)

Lemma perform_config (c : Call EventFn) w :
  config (self (fst (perform generateId c w))) = config (self w).
Proof.
  call_cases c.
  - rewrite emit_eq. cbn zeta.
    destruct (handlersOf (eventHandlers (self w)) n);
      [by destruct (emit_strict perCall (self w)) | done].
  - destruct (onEvent_cases fuel n h perCall w)
      as [[_ Hrun] | [(k & _ & _ & Hrun) | Hrun]]; by rewrite Hrun.
  - by rewrite removeAllEventHandlers_eq.
  - by rewrite removeEventHandler_eq.
  - rewrite request_eq. by destruct (handlersOf (methodHandlers (self w)) n).
  - rewrite onRequest_eq.
    destruct (handlersOf (methodHandlers (self w)) n); [by destruct fuel | done].
  - by rewrite removeMethodHandler_eq.
Qed.

Lemma run_calls_config (calls : list (Call EventFn)) w :
  config (self (run_calls generateId calls w)) = config (self w).
Proof.
  revert w. induction calls as [|c calls IH]; intros w; [done |].
  cbn. unfold run_calls in IH. by rewrite IH, perform_config.
Qed.


(** ** The utility methods on a name without slot *)


(** ** The identifier loop stops *)

(** Among [m] draws of a generator that never repeats itself, at most as
    many collide as there are identifiers to collide with. *)
Lemma colliding_draws_bound (ids : list string) (start m : nat) :
  (forall i j, generateId i = generateId j -> i = j) ->
  (forall j, (j < m)%nat -> generateId (start + j) ∈ ids) ->
  (m <= length ids)%nat.
Proof.
  intros Hinj Hall.
  assert (Hnodup : NoDup ((fun j => generateId (start + j)) <$> seq 0 m)).
  { apply NoDup_fmap_2_strong; [| apply NoDup_seq].
    intros i j _ _ Heq. apply Hinj in Heq. lia. }
  assert (Hsub : (fun j => generateId (start + j)) <$> seq 0 m ⊆+ ids).
  { apply NoDup_submseteq; [done |]. intros x Hx.
    apply list_elem_of_fmap in Hx as (j & -> & Hj).
    apply elem_of_seq in Hj. apply Hall. lia. }
  apply submseteq_length in Hsub.
  by rewrite length_fmap, length_seq in Hsub.
Qed.

(** X17. When shortid never returns the same identifier twice,
    [generateUniqueIdentifier] returns after at most one draw more than
    there are entries under the name: fuel beyond the number of entries is
    never used up. *)
Theorem generateUniqueIdentifier_terminates {F : Type}
    (registry : RegistryRef EventFn F) name
    (entries : list (HandlerEntry F)) (fuel : nat) w :
  (forall i j, generateId i = generateId j -> i = j) ->
  deref registry (self w) !! name = Some entries ->
  (length entries < fuel)%nat ->
  exists k,
    (k <= length entries)%nat
    /\ (generateId (shortidCalls w + k) ∉ (id <$> entries))
    /\ (generateUniqueIdentifier generateId fuel registry name w
        = (drawn w (S k), Normal (generateId (shortidCalls w + k)))).
Proof.
  intros Hinj Hslot Hfuel.
  destruct (generateUniqueIdentifier_first_fresh registry name entries fuel w
              Hslot)
    as [(k & Hk & Hbefore & Hfresh & Hrun) | [Hall Hrun]].
  - exists k. split; [| by split].
    pose proof (colliding_draws_bound _ _ _ Hinj Hbefore) as Hbound.
    by rewrite length_fmap in Hbound.
  - exfalso.
    pose proof (colliding_draws_bound _ _ _ Hinj Hall) as Hbound.
    rewrite length_fmap in Hbound. lia.
Qed.

(** ** Starting a name over *)


End Properties.

(** * The statements on the sample program *)

(** C1, refuted as stated.  With [first_handler] registered under ['m'], a
    second [onRequest] for ['m'] throws the [AlreadyExistsError], and a
    later [request] is still answered by [first_handler]. *)
Lemma onRequest_twice_throws :
  snd (onRequest sampleIds 1 "m" first_handler fresh) = Normal "a1"
  /\ snd (onRequest sampleIds 1 "m" second_handler with_first_handler)
     = Throw (AlreadyExistsError "m")
  /\ snd (request (R := unit) "m" JsUndefined None None
            (fst (onRequest sampleIds 1 "m" second_handler
                    with_first_handler)))
     = Normal (ReturnedPromise (Fulfilled (JsString "first"))).
Proof. repeat split. Qed.

Lemma onRequest_rejects_second_handler_witness :
  methodHandlers (self with_first_handler) !! "m"
  = Some [{| id := "a1"; handler := wrapper first_handler |}]
  /\ onRequest sampleIds 1 "m" second_handler with_first_handler
     = (with_first_handler, Throw (AlreadyExistsError "m")).
Proof.
  split; [reflexivity |].
  apply (proj1 (onRequest_rejects_second_handler sampleIds 1 "m"
                  second_handler
                  {| id := "a1"; handler := wrapper first_handler |} []
                  with_first_handler eq_refl)).
Defined.

(** C2, on the sample program.  [onEvent('ev', listener)] on a fresh
    dispatcher appends the entry with the generated identifier and then
    throws the [TypeError] instead of returning that identifier. *)
Theorem onEvent_throws_after_push :
  snd (onEvent sampleIds 1 "ev" "listener" None fresh) = Throw TypeError
  /\ eventHandlers (self (fst (onEvent sampleIds 1 "ev" "listener" None fresh)))
       !! "ev"
     = Some [{| id := "a1"; handler := "listener" |}].
Proof. split; reflexivity. Qed.

(** C3, on the sample program.  With the callback-shaped handler
    [(payload, callback) => callback(undefined, 42)] registered under ['m'],
    [request] in promise mode returns a promise fulfilled with [undefined],
    and in callback mode the callback is called with
    [(undefined, undefined)]: the result 42 is lost. *)
Theorem request_callback_handler_loses_result :
  snd (request (R := unit) "m" JsNull None None with_callback_handler)
  = Normal (ReturnedPromise (Fulfilled JsUndefined))
  /\ snd (request "m" JsNull None (Some pair) with_callback_handler)
     = Normal (ReturnedVoid (Some (JsUndefined, JsUndefined))).
Proof. split; reflexivity. Qed.

(** C4, on the sample program.  On a dispatcher with the default
    configuration, [request] on a name without handler, called with the
    per-call configuration [{throwErrorIfNoMethodHandlerFound: false}],
    throws the [NoHandlerError] all the same. *)
Theorem request_per_call_false_still_throws :
  snd (request (R := unit) "m" JsUndefined (Some false) None fresh)
  = Throw (NoHandlerError "m").
Proof. reflexivity. Qed.

Lemma emit_without_handlers_witness :
  handlersOf (eventHandlers (self fresh)) "ev" = []
  /\ config (self fresh) = defaultIntercomConfig
  /\ emit "ev" (JsString "hello") None fresh
     = (store this_eventHandlers fresh
          (materialise (eventHandlers (self fresh)) "ev"),
        Normal tt).
Proof.
  split; [reflexivity |]. split; [reflexivity |].
  apply (proj1 (emit_without_handlers "ev" (JsString "hello") fresh
                  eq_refl)).
  reflexivity.
Defined.

Lemma generateUniqueIdentifier_never_collides_witness :
  deref this_eventHandlers (self with_listener) !! "ev"
  = Some [{| id := "a1"; handler := "listener" |}]
  /\ exists k,
       (k <= 1)%nat
       /\ (forall j, (j < k)%nat ->
             sampleIds (shortidCalls with_listener + j)
               ∈ (id <$> [{| id := "a1"; handler := "listener" |}]))
       /\ (generateUniqueIdentifier sampleIds 3 this_eventHandlers "ev"
             with_listener
           = (drawn with_listener (S k),
              Normal (sampleIds (shortidCalls with_listener + k)))).
Proof.
  split; [reflexivity |].
  apply (proj2 (proj2 (generateUniqueIdentifier_never_collides sampleIds
                         this_eventHandlers "ev"
                         [{| id := "a1"; handler := "listener" |}] 3
                         with_listener eq_refl)) 1%nat).
  - lia.
  - cbn. intros Hin. apply list_elem_of_singleton in Hin. discriminate Hin.
Defined.

(** On the sample program the loop draws ["a1"], which the listener
    already carries, draws again and returns ["b2"]. *)
Example generateUniqueIdentifier_retries :
  generateUniqueIdentifier sampleIds 3 this_eventHandlers "ev" with_listener
  = (drawn with_listener 2, Normal "b2").
Proof. reflexivity. Qed.

Lemma methodHandlers_exclusive_witness :
  reachable sampleIds with_first_handler
  /\ exclusive (self with_first_handler).
Proof.
  assert (Hreach : reachable sampleIds with_first_handler).
  { apply reachable_perform. apply reachable_new. }
  split; [exact Hreach |].
  apply (proj2 (methodHandlers_exclusive sampleIds)). exact Hreach.
Defined.

(** C8, refuted as stated.  On a fresh dispatcher, [emit] with
    [throwErrorIfNoEventHandlerFound: true] throws the [NoHandlerError],
    and the event registry it leaves behind has a slot that was not there
    before. *)
Lemma emit_failure_prepares_slot :
  snd (emit "ev" JsUndefined (Some true) fresh) = Throw (NoHandlerError "ev")
  /\ eventHandlers (self (fst (emit "ev" JsUndefined (Some true) fresh)))
     <> eventHandlers (self fresh).
Proof.
  split; [reflexivity |].
  intros Heq. apply (f_equal (fun r => r !! "ev")) in Heq. discriminate Heq.
Qed.

Lemma failed_call_keeps_entries_witness :
  snd (perform sampleIds (Emit "ev" JsUndefined (Some true)) fresh)
  = Throw (NoHandlerError "ev")
  /\ same_handlers fresh
       (fst (perform sampleIds (Emit "ev" JsUndefined (Some true)) fresh))
  /\ same_slots_but "ev" fresh
       (fst (perform sampleIds (Emit "ev" JsUndefined (Some true)) fresh)).
Proof.
  split; [reflexivity |].
  apply (proj1 (failed_call_keeps_entries sampleIds
                  (Emit "ev" JsUndefined (Some true)) "ev" fresh)).
  reflexivity.
Defined.

Lemma removeEventHandler_removes_the_entry_witness :
  handlersOf (eventHandlers (self with_two_listeners)) "ev"
  = [] ++ {| id := "a1"; handler := "listener" |}
          :: [{| id := "b2"; handler := "other" |}]
  /\ ("a1" ∉ (id <$> [] ++ [{| id := "b2"; handler := "other" |}]))
  /\ handlersOf
       (eventHandlers
          (self (fst (removeEventHandler "ev" "a1" with_two_listeners))))
       "ev"
     = [] ++ [{| id := "b2"; handler := "other" |}].
Proof.
  assert (Hother : "a1" ∉ (id <$> [] ++ [{| id := "b2"; handler := "other" |}])).
  { cbn. intros Hin. apply list_elem_of_singleton in Hin. discriminate Hin. }
  split; [reflexivity |]. split; [exact Hother |].
  destruct (removeEventHandler_removes_the_entry "ev" "a1" with_two_listeners)
    as (_ & _ & _ & Hexact & _).
  apply (Hexact [] {| id := "a1"; handler := "listener" |}
           [{| id := "b2"; handler := "other" |}]);
    [reflexivity | reflexivity | exact Hother].
Defined.

Lemma request_first_entry_read_witness :
  handlersOf (methodHandlers (self lenient)) "m" = []
  /\ request_strict None (self lenient) = false
  /\ snd (request (R := unit) "m" JsUndefined None None lenient)
     = Throw TypeError.
Proof.
  split; [reflexivity |]. split; [reflexivity |].
  apply (proj1 (request_first_entry_read "m" JsUndefined None None lenient));
    reflexivity.
Defined.

(** * The further properties on the sample program *)

Lemma reachable_ids_distinct_witness :
  reachable sampleIds with_two_listeners
  /\ unique_ids (eventHandlers (self with_two_listeners))
  /\ unique_ids (methodHandlers (self with_two_listeners)).
Proof.
  assert (Hreach : reachable sampleIds with_two_listeners).
  { do 2 apply reachable_perform. apply reachable_new. }
  split; [exact Hreach |].
  apply (reachable_ids_distinct sampleIds with_two_listeners Hreach).
Defined.

Lemma onRequest_then_request_witness :
  handlersOf (methodHandlers (self fresh)) "m" = []
  /\ snd (onRequest sampleIds 1 "m"
            (PromiseMethod (fun _ => Fulfilled (JsString "first"))) fresh)
     = Normal "a1"
  /\ snd (request (R := unit) "m" JsNull None None
            (fst (onRequest sampleIds 1 "m"
                    (PromiseMethod (fun _ => Fulfilled (JsString "first")))
                    fresh)))
     = Normal (ReturnedPromise (Fulfilled (JsString "first"))).
Proof.
  split; [reflexivity |].
  destruct (onRequest_then_request sampleIds "m"
              (fun _ => Fulfilled (JsString "first")) 0 fresh eq_refl)
    as (Hid & _ & _ & Hpromise & _).
  split; [exact Hid | exact (Hpromise JsNull None)].
Defined.


Lemma emit_schedules_listeners_witness :
  eventHandlers (self with_two_listeners) !! "ev"
  = Some [{| id := "a1"; handler := "listener" |};
          {| id := "b2"; handler := "other" |}]
  /\ emit "ev" (JsString "hello") None with_two_listeners
     = (queued with_two_listeners
          [{| task_handler := "listener"; task_payload := JsString "hello" |};
           {| task_handler := "other"; task_payload := JsString "hello" |}],
        Normal tt).
Proof.
  split; [reflexivity |].
  apply (emit_schedules_listeners "ev" (JsString "hello") None
           {| id := "a1"; handler := "listener" |}
           [{| id := "b2"; handler := "other" |}] with_two_listeners eq_refl).
Defined.


Lemma onEvent_then_removeEventHandler_witness :
  (0 <? length (handlersOf (eventHandlers (self with_listener)) "ev"))%nat
  && or_default None
       (preventDuplicatedEventListeners (config (self with_listener)))
  = false
  /\ (sampleIds (shortidCalls with_listener + 1)
        ∉ (id <$> handlersOf (eventHandlers (self with_listener)) "ev"))
  /\ exists k,
       (k <= 1)%nat
       /\ handlersOf
            (eventHandlers
               (self (fst (removeEventHandler "ev"
                             (sampleIds (shortidCalls with_listener + k))
                             (fst (onEvent sampleIds 2 "ev" "other" None
                                     with_listener))))))
            "ev"
          = handlersOf (eventHandlers (self with_listener)) "ev".
Proof.
  assert (Hfresh : sampleIds (shortidCalls with_listener + 1)
                     ∉ (id <$> handlersOf (eventHandlers (self with_listener))
                                 "ev")).
  { cbn. intros Hin. apply list_elem_of_singleton in Hin. discriminate Hin. }
  split; [reflexivity |]. split; [exact Hfresh |].
  destruct (onEvent_then_removeEventHandler sampleIds 2 "ev" "other" None 1
              with_listener eq_refl (le_n 2) Hfresh)
    as (k & Hk & _ & Hback).
  exists k. split; [exact Hk | exact Hback].
Defined.


Lemma generateUniqueIdentifier_terminates_witness :
  (forall i j : nat, pretty i = pretty j -> i = j)
  /\ deref this_eventHandlers (self with_listener) !! "ev"
     = Some [{| id := "a1"; handler := "listener" |}]
  /\ (length [{| id := "a1"; handler := "listener" |}] < 2)%nat
  /\ exists k,
       (k <= length [{| id := "a1"; handler := "listener" |}])%nat
       /\ (pretty (shortidCalls with_listener + k)%nat
             ∉ (id <$> [{| id := "a1"; handler := "listener" |}]))
       /\ (generateUniqueIdentifier pretty 2 this_eventHandlers "ev"
             with_listener
           = (drawn with_listener (S k),
              Normal (pretty (shortidCalls with_listener + k)%nat))).
Proof.
  assert (Hinj : forall i j : nat, pretty i = pretty j -> i = j)
    by (intros i j; apply (inj pretty)).
  split; [exact Hinj |]. split; [reflexivity |]. split; [cbn; lia |].
  apply (generateUniqueIdentifier_terminates pretty this_eventHandlers "ev"
           [{| id := "a1"; handler := "listener" |}] 2 with_listener Hinj
           eq_refl).
  cbn. lia.
Defined.
